(** * Post lifecycle and analytics reconciliation of the TikTok scheduling dashboard

    A shallow embedding of the server side of the repository:

    - [shared/schema.ts]: the tables [posts], [tiktok_accounts] and
      [post_analytics] with their column types, defaults and keys;
    - [server/storage.ts] ([DatabaseStorage]): [getPost], [getPosts],
      [createPost], [updatePost], [getTikTokAccount], [getPostAnalytics],
      [upsertPostAnalytics];
    - [server/services/tiktokApi.ts]: the [TikTokApiService] interface and
      its [MockTikTokApiService] subclass;
    - [server/simpleRoutes.ts]: the handlers of
      [POST /api/posts/:id/publish] and [POST /api/sync-analytics].

    Handlers are [async] functions that [await] every storage and remote
    call, so one invocation is a sequential program.  It is embedded in a
    state-and-exception monad over a [World]: the database, the
    environment read by [new Date()], [Date.now()] and [Math.random()],
    and the trace of the effects performed so far. *)

From stdpp Require Import base tactics option list strings gmap sorting pretty.
From Stdlib Require Import ZArith Lia.

Local Open Scope string_scope.
Local Open Scope Z_scope.
Local Open Scope list_scope.

(** ** shared/schema.ts *)

(** [status: varchar("status", { enum: [...] })] *)
Inductive PostStatus := Draft | Scheduled | Posting | Posted | Failed.

(** [privacyLevel: varchar("privacy_level", { enum: [...] })] *)
Inductive PrivacyLevel := Public | Friends | Private.

#[global] Instance PostStatus_eq_dec : EqDecision PostStatus.
Proof. solve_decision. Defined.

#[global] Instance PrivacyLevel_eq_dec : EqDecision PrivacyLevel.
Proof. solve_decision. Defined.

(** A [timestamp] column, in milliseconds since the epoch. *)
Definition Timestamp := Z.

(** A row of [posts] ([typeof posts.$inferSelect]).  A column declared
    without [.notNull()] is nullable: its type is an [option]. *)
Record Post := mkPost {
  post_id : Z;
  post_userId : string;
  post_tiktokAccountId : Z;
  post_title : string;
  post_description : option string;
  post_hashtags : option (list string);
  post_videoUrl : string;
  post_thumbnailUrl : option string;
  post_status : option PostStatus;
  post_scheduledAt : option Timestamp;
  post_postedAt : option Timestamp;
  post_tiktokPostId : option string;
  post_privacyLevel : option PrivacyLevel;
  post_allowComments : option bool;
  post_allowDuet : option bool;
  post_allowStitch : option bool;
  post_errorMessage : option string;
  post_createdAt : option Timestamp;
  post_updatedAt : option Timestamp
}.

(** [InsertPost], restricted to the keys of [insertPostSchema] (the serial
    key and the two defaulted timestamps are never supplied by a caller).
    An optional key is [None] when it is absent ([undefined]); for a
    nullable column the value itself may be [null], hence the nested
    [option]. *)
Record InsertPost := mkInsertPost {
  ins_userId : string;
  ins_tiktokAccountId : Z;
  ins_title : string;
  ins_description : option (option string);
  ins_hashtags : option (option (list string));
  ins_videoUrl : string;
  ins_thumbnailUrl : option (option string);
  ins_status : option (option PostStatus);
  ins_scheduledAt : option (option Timestamp);
  ins_postedAt : option (option Timestamp);
  ins_tiktokPostId : option (option string);
  ins_privacyLevel : option (option PrivacyLevel);
  ins_allowComments : option (option bool);
  ins_allowDuet : option (option bool);
  ins_allowStitch : option (option bool);
  ins_errorMessage : option (option string)
}.

(** [Partial<InsertPost>], over the keys of [insertPostSchema]: every key
    optional.  The updates of the routes' own ([status], [tiktokPostId],
    [postedAt], [errorMessage]) are of this form. *)
Record PostUpdates := mkPostUpdates {
  set_userId : option string;
  set_tiktokAccountId : option Z;
  set_title : option string;
  set_description : option (option string);
  set_hashtags : option (option (list string));
  set_videoUrl : option string;
  set_thumbnailUrl : option (option string);
  set_status : option (option PostStatus);
  set_scheduledAt : option (option Timestamp);
  set_postedAt : option (option Timestamp);
  set_tiktokPostId : option (option string);
  set_privacyLevel : option (option PrivacyLevel);
  set_allowComments : option (option bool);
  set_allowDuet : option (option bool);
  set_allowStitch : option (option bool);
  set_errorMessage : option (option string)
}.

(** The object literal [{}]: no key present. *)
Definition no_updates : PostUpdates :=
  mkPostUpdates None None None None None None None None
                None None None None None None None None.

(** A row of [tiktok_accounts]. *)
Record TikTokAccount := mkTikTokAccount {
  acct_id : Z;
  acct_userId : string;
  acct_tiktokUserId : string;
  acct_username : string;
  acct_displayName : option string;
  acct_avatarUrl : option string;
  acct_followerCount : option Z;
  acct_followingCount : option Z;
  acct_likesCount : option Z;
  acct_videoCount : option Z;
  acct_accessToken : string;
  acct_refreshToken : option string;
  acct_tokenExpiresAt : option Timestamp;
  acct_isActive : option bool;
  acct_createdAt : option Timestamp;
  acct_updatedAt : option Timestamp
}.

(** A row of [post_analytics]. *)
Record PostAnalytics := mkPostAnalytics {
  pa_id : Z;
  pa_postId : Z;
  pa_viewCount : option Z;
  pa_likeCount : option Z;
  pa_commentCount : option Z;
  pa_shareCount : option Z;
  pa_playDuration : option Z;
  pa_averagePlayDuration : option Z;
  pa_profileViewCount : option Z;
  pa_updatedAt : option Timestamp
}.

(** [InsertPostAnalytics], restricted to the keys of
    [insertPostAnalyticsSchema]. *)
Record InsertPostAnalytics := mkInsertPostAnalytics {
  ia_postId : Z;
  ia_viewCount : option (option Z);
  ia_likeCount : option (option Z);
  ia_commentCount : option (option Z);
  ia_shareCount : option (option Z);
  ia_playDuration : option (option Z);
  ia_averagePlayDuration : option (option Z);
  ia_profileViewCount : option (option Z)
}.

(** What a [pgTable] declaration says about keys: the primary key and the
    columns declared [.unique()].  These are the only unique indexes the
    table has. *)
Record TableSchema := mkTableSchema {
  tbl_name : string;
  tbl_primaryKey : string;
  tbl_unique : list string
}.

Definition users : TableSchema := mkTableSchema "users" "id" ["email"].
Definition tiktokAccounts : TableSchema := mkTableSchema "tiktok_accounts" "id" [].
Definition posts : TableSchema := mkTableSchema "posts" "id" [].

(** [post_id] is declared
    [integer("post_id").notNull().references(() => posts.id, ...)]:
    a foreign key, not a unique column. *)
Definition postAnalytics : TableSchema := mkTableSchema "post_analytics" "id" [].

(** ** The world a handler runs in *)

(** The database: the three tables as row lists in storage order, and the
    sequences behind the [serial] keys. *)
Record Db := mkDb {
  db_posts : list Post;
  db_tiktokAccounts : list TikTokAccount;
  db_postAnalytics : list PostAnalytics;
  db_posts_id_seq : Z;
  db_postAnalytics_id_seq : Z
}.

(** The environment: the [n]-th reading of the clock is [env_clock n], and
    [env_random n k] is [Math.floor(Math.random() * k)] at the [n]-th draw.
    Both are arbitrary, so nothing below depends on a particular clock or
    generator. *)
Record Env := mkEnv {
  env_clock : nat → Timestamp;
  env_ticks : nat;
  env_random : nat → Z → Z;
  env_draws : nat
}.

Definition tick (e : Env) : Env :=
  mkEnv (env_clock e) (S (env_ticks e)) (env_random e) (env_draws e).

Definition draw (e : Env) : Env :=
  mkEnv (env_clock e) (env_ticks e) (env_random e) (S (env_draws e)).

Definition now (e : Env) : Timestamp := env_clock e (env_ticks e).

Definition random_below (e : Env) (k : Z) : Z := env_random e (env_draws e) k.

(** [TikTokPostRequest['post_info']] *)
Inductive RemotePrivacy := PUBLIC_TO_EVERYONE | MUTUAL_FOLLOW_FRIEND | SELF_ONLY.

Record PostInfo := mkPostInfo {
  title : string;
  privacy_level : RemotePrivacy;
  disable_duet : bool;
  disable_comment : bool;
  disable_stitch : bool
}.

(** The effects of a handler that another party can observe, in the order
    in which they are performed: a write of [posts] once it is committed,
    an upsert of [post_analytics] once the statement is sent (the database
    may reject it), a call of the remote platform, a line on the error
    console.  A publish call records the database as it stands when the
    call is sent. *)
Inductive Event :=
  | EvCreatePost (data : InsertPost)
  | EvUpdatePost (id : Z) (updates : PostUpdates)
  | EvUpsertPostAnalytics (data : InsertPostAnalytics)
  | EvPostVideoFromUrl (accessToken videoUrl : string) (postInfo : PostInfo) (committed : Db)
  | EvGetVideoAnalytics (accessToken : string) (videoIds : list string)
  | EvConsoleError (label message : string).

Record World := mkWorld {
  w_db : Db;
  w_env : Env;
  w_trace : list Event
}.

(** ** The monad of handlers

    A computation either returns a value or throws an [Error], whose
    [message] is all the program reads; the world it leaves behind is kept
    in both cases (no statement runs in a transaction). *)
Definition M (A : Type) : Type := World → (string + A) * World.

#[global] Instance M_ret : MRet M := λ A a w, (inr a, w).

#[global] Instance M_bind : MBind M := λ A B k m w,
  match m w with
  | (inl e, w') => (inl e, w')
  | (inr a, w') => k a w'
  end.

Definition throw {A} (message : string) : M A := λ w, (inl message, w).

(** [try { m } catch (error) { h error.message }] *)
Definition try_catch {A} (m : M A) (h : string → M A) : M A := λ w,
  match m w with
  | (inl e, w') => h e w'
  | (inr a, w') => (inr a, w')
  end.

Definition get_db : M Db := λ w, (inr (w_db w), w).

Definition put_db (d : Db) : M unit := λ w,
  (inr (), mkWorld d (w_env w) (w_trace w)).

Definition emit (ev : Event) : M unit := λ w,
  (inr (), mkWorld (w_db w) (w_env w) (w_trace w ++ [ev])).

(** [new Date()] and [Date.now()]: one reading of the clock. *)
Definition new_Date : M Timestamp := λ w,
  (inr (now (w_env w)), mkWorld (w_db w) (tick (w_env w)) (w_trace w)).

(** [console.error(label, error)] *)
Definition console_error (label message : string) : M unit :=
  emit (EvConsoleError label message).

(** ** server/storage.ts: [DatabaseStorage]

    A [select ... where eq(col, v)] is the sub-list of the matching rows,
    and [const [row] = await ...] takes its head, [undefined] when there
    is none.  Column defaults and [serial] keys are filled in on insert.
    The statements are embedded as the database performs them when it
    accepts them: the foreign keys of [posts] are not checked, so
    [createPost] and [updatePost] stand for the code only where the user
    and the account a row names exist ([references_exist] below), and the
    records of an insert and of an update have the keys of
    [insertPostSchema], not [id] or [createdAt]. *)

(** [defaultNow()]: the database reads the same clock. *)
Definition defaultNow : M Timestamp := new_Date.

Definition rows_of_post (d : Db) (id : Z) : list Post :=
  filter (λ p, post_id p = id) (db_posts d).

Definition getPost (id : Z) : M (option Post) :=
  d ← get_db; mret (head (rows_of_post d id)).

(** [desc(posts.createdAt)]: later rows first, [NULL] before every value. *)
Definition createdAt_desc (p q : Post) : Prop :=
  match post_createdAt p, post_createdAt q with
  | None, _ => True
  | Some _, None => False
  | Some a, Some b => (b ≤ a)%Z
  end.

#[global] Instance createdAt_desc_dec p q : Decision (createdAt_desc p q).
Proof.
  unfold createdAt_desc.
  destruct (post_createdAt p), (post_createdAt q); apply _.
Defined.

Definition getPosts (userId : string) : M (list Post) :=
  d ← get_db;
  mret (merge_sort createdAt_desc (filter (λ p, post_userId p = userId) (db_posts d))).

Definition insert_post_row (id : Z) (postData : InsertPost) (t : Timestamp) : Post :=
  mkPost id
    (ins_userId postData)
    (ins_tiktokAccountId postData)
    (ins_title postData)
    (default None (ins_description postData))
    (default None (ins_hashtags postData))
    (ins_videoUrl postData)
    (default None (ins_thumbnailUrl postData))
    (default (Some Draft) (ins_status postData))
    (default None (ins_scheduledAt postData))
    (default None (ins_postedAt postData))
    (default None (ins_tiktokPostId postData))
    (default (Some Public) (ins_privacyLevel postData))
    (default (Some true) (ins_allowComments postData))
    (default (Some true) (ins_allowDuet postData))
    (default (Some true) (ins_allowStitch postData))
    (default None (ins_errorMessage postData))
    (Some t)
    (Some t).

Definition createPost (postData : InsertPost) : M Post :=
  d ← get_db;
  t ← defaultNow;
  let post := insert_post_row (db_posts_id_seq d) postData t in
  put_db (mkDb (db_posts d ++ [post]) (db_tiktokAccounts d) (db_postAnalytics d)
               (db_posts_id_seq d + 1) (db_postAnalytics_id_seq d));;
  emit (EvCreatePost postData);;
  mret post.

(** [.set({ ...updates, updatedAt })] on one row: a key that is present
    overwrites its column, an absent key leaves it. *)
Definition set_post (updates : PostUpdates) (updatedAt : Timestamp) (p : Post) : Post :=
  mkPost (post_id p)
    (default (post_userId p) (set_userId updates))
    (default (post_tiktokAccountId p) (set_tiktokAccountId updates))
    (default (post_title p) (set_title updates))
    (default (post_description p) (set_description updates))
    (default (post_hashtags p) (set_hashtags updates))
    (default (post_videoUrl p) (set_videoUrl updates))
    (default (post_thumbnailUrl p) (set_thumbnailUrl updates))
    (default (post_status p) (set_status updates))
    (default (post_scheduledAt p) (set_scheduledAt updates))
    (default (post_postedAt p) (set_postedAt updates))
    (default (post_tiktokPostId p) (set_tiktokPostId updates))
    (default (post_privacyLevel p) (set_privacyLevel updates))
    (default (post_allowComments p) (set_allowComments updates))
    (default (post_allowDuet p) (set_allowDuet updates))
    (default (post_allowStitch p) (set_allowStitch updates))
    (default (post_errorMessage p) (set_errorMessage updates))
    (post_createdAt p)
    (Some updatedAt).

Definition update_posts_where_id (id : Z) (updates : PostUpdates)
    (updatedAt : Timestamp) (rows : list Post) : list Post :=
  (λ p, if decide (post_id p = id) then set_post updates updatedAt p else p) <$> rows.

Definition db_update_post (d : Db) (id : Z) (updates : PostUpdates)
    (updatedAt : Timestamp) : Db :=
  mkDb (update_posts_where_id id updates updatedAt (db_posts d))
       (db_tiktokAccounts d) (db_postAnalytics d)
       (db_posts_id_seq d) (db_postAnalytics_id_seq d).

Definition updatePost (id : Z) (updates : PostUpdates) : M (option Post) :=
  updatedAt ← new_Date;
  d ← get_db;
  let d' := db_update_post d id updates updatedAt in
  put_db d';;
  emit (EvUpdatePost id updates);;
  mret (head (rows_of_post d' id)).

Definition rows_of_account (d : Db) (id : Z) : list TikTokAccount :=
  filter (λ a, acct_id a = id) (db_tiktokAccounts d).

Definition getTikTokAccount (id : Z) : M (option TikTokAccount) :=
  d ← get_db; mret (head (rows_of_account d id)).

Definition rows_of_analytics (d : Db) (postId : Z) : list PostAnalytics :=
  filter (λ r, pa_postId r = postId) (db_postAnalytics d).

Definition getPostAnalytics (postId : Z) : M (option PostAnalytics) :=
  d ← get_db; mret (head (rows_of_analytics d postId)).

(** [onConflictDoUpdate({ target: column, ... })] is sent as
    [INSERT ... ON CONFLICT (column) DO UPDATE SET ...]: the column names
    the unique index that arbitrates the conflict.  PostgreSQL takes the
    statement only when the table has a unique index on the column, and
    otherwise rejects it (SQLSTATE 42P10) with the message below, whatever
    the rows are. *)
Definition has_unique_index (t : TableSchema) (column : string) : bool :=
  bool_decide (column = tbl_primaryKey t ∨ column ∈ tbl_unique t).

Definition no_arbiter_index : string :=
  "there is no unique or exclusion constraint matching the ON CONFLICT specification".

Definition insert_analytics_row (id : Z) (data : InsertPostAnalytics) (t : Timestamp)
    : PostAnalytics :=
  mkPostAnalytics id
    (ia_postId data)
    (default (Some 0) (ia_viewCount data))
    (default (Some 0) (ia_likeCount data))
    (default (Some 0) (ia_commentCount data))
    (default (Some 0) (ia_shareCount data))
    (default (Some 0) (ia_playDuration data))
    (default (Some 0) (ia_averagePlayDuration data))
    (default (Some 0) (ia_profileViewCount data))
    (Some t).

(** [set: { ...analyticsData, updatedAt }] on the conflicting row. *)
Definition set_analytics (data : InsertPostAnalytics) (updatedAt : Timestamp)
    (r : PostAnalytics) : PostAnalytics :=
  mkPostAnalytics (pa_id r)
    (ia_postId data)
    (default (pa_viewCount r) (ia_viewCount data))
    (default (pa_likeCount r) (ia_likeCount data))
    (default (pa_commentCount r) (ia_commentCount data))
    (default (pa_shareCount r) (ia_shareCount data))
    (default (pa_playDuration r) (ia_playDuration data))
    (default (pa_averagePlayDuration r) (ia_averagePlayDuration data))
    (default (pa_profileViewCount r) (ia_profileViewCount data))
    (Some updatedAt).

(** [db.insert(table).values(data).onConflictDoUpdate({ target:
    table.postId, set: {...data, updatedAt: new Date()} }).returning()]
    on a table of analytics rows declared as [table]. *)
Definition insert_onConflictDoUpdate_postId (table : TableSchema)
    (analyticsData : InsertPostAnalytics) : M PostAnalytics :=
  updatedAt ← new_Date;
  emit (EvUpsertPostAnalytics analyticsData);;
  if has_unique_index table "post_id" then
    d ← get_db;
    match head (rows_of_analytics d (ia_postId analyticsData)) with
    | Some r =>
        let rows := (λ r, if decide (pa_postId r = ia_postId analyticsData)
                          then set_analytics analyticsData updatedAt r else r)
                    <$> db_postAnalytics d in
        put_db (mkDb (db_posts d) (db_tiktokAccounts d) rows
                     (db_posts_id_seq d) (db_postAnalytics_id_seq d + 1));;
        mret (set_analytics analyticsData updatedAt r)
    | None =>
        t ← defaultNow;
        let row := insert_analytics_row (db_postAnalytics_id_seq d) analyticsData t in
        put_db (mkDb (db_posts d) (db_tiktokAccounts d) (db_postAnalytics d ++ [row])
                     (db_posts_id_seq d) (db_postAnalytics_id_seq d + 1));;
        mret row
    end
  else throw no_arbiter_index.

Definition upsertPostAnalytics (analyticsData : InsertPostAnalytics) : M PostAnalytics :=
  insert_onConflictDoUpdate_postId postAnalytics analyticsData.

(** ** server/services/tiktokApi.ts *)

(** [TikTokPostResponse]: the route reads [result.data.publish_id]. *)
Record TikTokPostResponse := mkTikTokPostResponse {
  publish_id : string
}.

(** [TikTokAnalytics['metrics']] *)
Record TikTokAnalytics := mkTikTokAnalytics {
  likes : Z;
  comments : Z;
  shares : Z;
  views : Z;
  profile_view : Z;
  video_view_duration_avg : Z
}.

(** The two methods of [TikTokApiService] the routes call.  What the
    remote platform answers is not the program's: a method is any function
    of the environment and the arguments that either throws an [Error]
    (left, its message) or resolves (right), and leaves an environment. *)
Record TikTokApiService := mkTikTokApiService {
  postVideoFromUrl : Env → string → PostInfo → (string + TikTokPostResponse) * Env;
  getVideoAnalytics : Env → list string → (string + gmap string TikTokAnalytics) * Env
}.

(** A class of services: [new Api(accessToken)].  The routes construct
    [MockTikTokApiService] ("Use mock service for development"); they are
    embedded over any subclass of [TikTokApiService], the mock being one
    instance. *)
Definition ApiClass := string → TikTokApiService.

Definition mock_metrics (e0 : Env) : TikTokAnalytics * Env :=
  let likes := random_below e0 10000 in let e1 := draw e0 in
  let comments := random_below e1 1000 in let e2 := draw e1 in
  let shares := random_below e2 500 in let e3 := draw e2 in
  let views := random_below e3 100000 in let e4 := draw e3 in
  let profile_view := random_below e4 200 in let e5 := draw e4 in
  let video_view_duration_avg := random_below e5 30000 in let e6 := draw e5 in
  (mkTikTokAnalytics likes comments shares views profile_view video_view_duration_avg, e6).

(** [class MockTikTokApiService extends TikTokApiService] *)
Definition MockTikTokApiService : ApiClass := λ accessToken,
  {| postVideoFromUrl e _ _ :=
       (inr (mkTikTokPostResponse ("mock_post_" +:+ pretty (now e))), tick e);
     getVideoAnalytics e videoIds :=
       let '(analytics, e') :=
         foldl (λ '(analytics, e) id,
                  let '(metrics, e') := mock_metrics e in (<[id := metrics]> analytics, e'))
               (∅, e) videoIds in
       (inr analytics, e') |}.

(** [await apiService.postVideoFromUrl(videoUrl, postInfo)] *)
Definition await_postVideoFromUrl (accessToken : string) (apiService : TikTokApiService)
    (videoUrl : string) (postInfo : PostInfo) : M TikTokPostResponse := λ w,
  let '(result, e) := postVideoFromUrl apiService (w_env w) videoUrl postInfo in
  (result,
   mkWorld (w_db w) e (w_trace w ++ [EvPostVideoFromUrl accessToken videoUrl postInfo (w_db w)])).

(** [await apiService.getVideoAnalytics(videoIds)] *)
Definition await_getVideoAnalytics (accessToken : string) (apiService : TikTokApiService)
    (videoIds : list string) : M (gmap string TikTokAnalytics) := λ w,
  let '(result, e) := getVideoAnalytics apiService (w_env w) videoIds in
  (result, mkWorld (w_db w) e (w_trace w ++ [EvGetVideoAnalytics accessToken videoIds])).

(** ** server/simpleRoutes.ts *)

Definition mockUserId : string := "demo_user_123".

(** What the handler reads of the request: [req.protocol] and
    [req.get('host')]. *)
Record Request := mkRequest {
  req_protocol : string;
  req_host : option string
}.

Inductive Json :=
  | JsonMessage (message : string)
  | JsonPost (post : option Post).

(** [res.status(code).json(body)]; [res.json(body)] answers 200. *)
Record Response := mkResponse {
  res_status : Z;
  res_body : Json
}.

(** [!b] on a nullable boolean: [null] is falsy. *)
Definition js_not (b : option bool) : bool :=
  match b with
  | Some true => false
  | _ => true
  end.

(** A string in a condition: [null] and the empty string are falsy. *)
Definition truthy (s : option string) : bool :=
  match s with
  | Some s => bool_decide (s ≠ "")
  | None => false
  end.

(** The conditional that fills [privacy_level]. *)
Definition remote_privacy_level (privacyLevel : option PrivacyLevel) : RemotePrivacy :=
  if decide (privacyLevel = Some Public) then PUBLIC_TO_EVERYONE
  else if decide (privacyLevel = Some Friends) then MUTUAL_FOLLOW_FRIEND
  else SELF_ONLY.

Definition postInfo_of (post : Post) : PostInfo :=
  {| title := post_title post;
     privacy_level := remote_privacy_level (post_privacyLevel post);
     disable_duet := js_not (post_allowDuet post);
     disable_comment := js_not (post_allowComments post);
     disable_stitch := js_not (post_allowStitch post) |}.

(** [`${req.protocol}://${req.get('host')}${post.videoUrl}`] *)
Definition video_location (req : Request) (post : Post) : string :=
  req_protocol req +:+ "://" +:+ default "undefined" (req_host req) +:+ post_videoUrl post.

Definition status_posting : PostUpdates :=
  mkPostUpdates None None None None None None None (Some (Some Posting))
                None None None None None None None None.

Definition status_posted (tiktokPostId : string) (postedAt : Timestamp) : PostUpdates :=
  mkPostUpdates None None None None None None None (Some (Some Posted))
                None (Some (Some postedAt)) (Some (Some tiktokPostId))
                None None None None None.

Definition status_failed (errorMessage : string) : PostUpdates :=
  mkPostUpdates None None None None None None None (Some (Some Failed))
                None None None None None None None (Some (Some errorMessage)).

(** The body of the outer [try] of [POST /api/posts/:id/publish], for the
    parsed [postId]: it resolves to the response it sent, or throws. *)
Definition publish (Api : ApiClass) (req : Request) (postId : Z) : M Response :=
  post ← getPost postId;
  match post with
  | None => mret (mkResponse 404 (JsonMessage "Post not found"))
  | Some post =>
      tiktokAccount ← getTikTokAccount (post_tiktokAccountId post);
      match tiktokAccount with
      | None => mret (mkResponse 404 (JsonMessage "TikTok account not found"))
      | Some tiktokAccount =>
          updatePost postId status_posting;;
          try_catch
            (let apiService := Api (acct_accessToken tiktokAccount) in
             let postInfo := postInfo_of post in
             result ← await_postVideoFromUrl (acct_accessToken tiktokAccount) apiService
                        (video_location req post) postInfo;
             postedAt ← new_Date;
             updatedPost ← updatePost postId (status_posted (publish_id result) postedAt);
             mret (mkResponse 200 (JsonPost updatedPost)))
            (λ error,
               updatePost postId (status_failed error);;
               throw error)
      end
  end.

(** The handler: the outer [catch] logs and answers 500 with the message. *)
Definition publish_route (Api : ApiClass) (req : Request) (postId : Z)
    : World → Response * World := λ w,
  match publish Api req postId w with
  | (inr res, w') => (res, w')
  | (inl error, w') =>
      (mkResponse 500 (JsonMessage error),
       snd (console_error "Error publishing post:" error w'))
  end.

(** [for (const x of xs) { body }] *)
Fixpoint for_of {A} (xs : list A) (body : A → M unit) : M unit :=
  match xs with
  | [] => mret ()
  | x :: xs => body x;; for_of xs body
  end.

Definition metrics_row (post : Post) (metrics : TikTokAnalytics) : InsertPostAnalytics :=
  {| ia_postId := post_id post;
     ia_viewCount := Some (Some (views metrics));
     ia_likeCount := Some (Some (likes metrics));
     ia_commentCount := Some (Some (comments metrics));
     ia_shareCount := Some (Some (shares metrics));
     ia_playDuration := None;
     ia_averagePlayDuration := Some (Some (video_view_duration_avg metrics));
     ia_profileViewCount := Some (Some (profile_view metrics)) |}.

(** One iteration of the loop of [POST /api/sync-analytics]. *)
Definition sync_post (Api : ApiClass) (post : Post) : M unit :=
  match post_tiktokPostId post with
  | None => mret ()
  | Some tiktokPostId =>
      if decide (tiktokPostId = "") then mret () else
      tiktokAccount ← getTikTokAccount (post_tiktokAccountId post);
      match tiktokAccount with
      | None => mret ()
      | Some tiktokAccount =>
          try_catch
            (let apiService := Api (acct_accessToken tiktokAccount) in
             analyticsData ← await_getVideoAnalytics (acct_accessToken tiktokAccount)
                               apiService [tiktokPostId];
             match analyticsData !! tiktokPostId with
             | Some metrics => upsertPostAnalytics (metrics_row post metrics);; mret ()
             | None => mret ()
             end)
            (λ error,
               console_error ("Error syncing analytics for post "
                              +:+ pretty (post_id post) +:+ ":") error)
      end
  end.

Definition is_posted (p : Post) : bool :=
  bool_decide (post_status p = Some Posted) && truthy (post_tiktokPostId p).

(** The body of the outer [try] of [POST /api/sync-analytics]. *)
Definition syncAnalytics (Api : ApiClass) : M Response :=
  posts ← getPosts mockUserId;
  let postedPosts := filter is_posted posts in
  for_of postedPosts (sync_post Api);;
  mret (mkResponse 200 (JsonMessage "Analytics synced successfully")).

Definition sync_analytics_route (Api : ApiClass) : World → Response * World := λ w,
  match syncAnalytics Api w with
  | (inr res, w') => (res, w')
  | (inl error, w') =>
      (mkResponse 500 (JsonMessage "Failed to sync analytics"),
       snd (console_error "Error syncing analytics:" error w'))
  end.

(** ** Reading the tables *)

Definition lookup_post (d : Db) (id : Z) : option Post := head (rows_of_post d id).

Definition lookup_account (d : Db) (id : Z) : option TikTokAccount :=
  head (rows_of_account d id).

(** [id] is the primary key of [posts]. *)
Definition posts_primary_key (d : Db) : Prop := NoDup (post_id <$> db_posts d).

(** What a unique index on [post_id] would make of [post_analytics]. *)
Definition analytics_key (d : Db) : Prop := NoDup (pa_postId <$> db_postAnalytics d).

(** The answer of the remote platform to the call [publish] sends for
    [post] through [tiktokAccount]: the call comes after the write of
    [posting], which has read the clock once. *)
Definition publish_call (Api : ApiClass) (req : Request) (w : World) (post : Post)
    (tiktokAccount : TikTokAccount) : (string + TikTokPostResponse) * Env :=
  postVideoFromUrl (Api (acct_accessToken tiktokAccount)) (tick (w_env w))
    (video_location req post) (postInfo_of post).

(** The event of that call, sent while the database is [committed]. *)
Definition publish_call_event (req : Request) (post : Post)
    (tiktokAccount : TikTokAccount) (committed : Db) : Event :=
  EvPostVideoFromUrl (acct_accessToken tiktokAccount) (video_location req post)
    (postInfo_of post) committed.

(** The database a reader sees while the remote call of [publish] runs. *)
Definition db_while_posting (w : World) (postId : Z) : Db :=
  db_update_post (w_db w) postId status_posting (now (w_env w)).

(** [publish] answers 404 in exactly this situation. *)
Definition post_or_account_missing (d : Db) (postId : Z) : Prop :=
  match lookup_post d postId with
  | None => True
  | Some post => lookup_account d (post_tiktokAccountId post) = None
  end.

(** The remote platform has no entry for [videoId], whenever it is asked. *)
Definition unrecognised (apiService : TikTokApiService) (videoId : string) : Prop :=
  ∀ e analyticsData e',
    getVideoAnalytics apiService e [videoId] = (inr analyticsData, e') →
    analyticsData !! videoId = None.


(** The sweep can reach the upsert for [post]: it has a remote id and an
    account, and some answer of the platform holds an entry for the id. *)
Definition fetch_may_succeed (Api : ApiClass) (d : Db) (post : Post) : Prop :=
  ∃ videoId tiktokAccount e analyticsData e',
    post_tiktokPostId post = Some videoId ∧
    lookup_account d (post_tiktokAccountId post) = Some tiktokAccount ∧
    getVideoAnalytics (Api (acct_accessToken tiktokAccount)) e [videoId]
      = (inr analyticsData, e') ∧
    is_Some (analyticsData !! videoId).

(** The privacy table in the words of the specification. *)
Definition privacy_table (privacyLevel : PrivacyLevel) : RemotePrivacy :=
  match privacyLevel with
  | Public => PUBLIC_TO_EVERYONE
  | Friends => MUTUAL_FOLLOW_FRIEND
  | Private => SELF_ONLY
  end.

(** ** The round-trip property of the specification *)

Definition round_trip (p : Post) : Prop :=
  post_status p = Some Posted ↔
  is_Some (post_tiktokPostId p) ∧ is_Some (post_postedAt p).

#[global] Instance round_trip_dec p : Decision (round_trip p).
Proof. unfold round_trip. apply _. Defined.

Definition round_trip_db (d : Db) : Prop := ∀ p, p ∈ db_posts d → round_trip p.

(** The operations that create or update a post. *)
Inductive Operation :=
  | OpCreatePost (postData : InsertPost)
  | OpUpdatePost (id : Z) (updates : PostUpdates)
  | OpPublish (Api : ApiClass) (req : Request) (postId : Z)
  | OpSyncAnalytics (Api : ApiClass).

Definition run (op : Operation) (w : World) : World :=
  match op with
  | OpCreatePost postData => snd (createPost postData w)
  | OpUpdatePost id updates => snd (updatePost id updates w)
  | OpPublish Api req postId => snd (publish_route Api req postId w)
  | OpSyncAnalytics Api => snd (sync_analytics_route Api w)
  end.

(** Worlds the program can be in: it starts without posts and performs
    operations. *)
Inductive reachable : World → Prop :=
  | reachable_start accounts e :
      reachable (mkWorld (mkDb [] accounts [] 1 1) e [])
  | reachable_run op w : reachable w → reachable (run op w).

(** What an operation needs for the round-trip property to survive it.
    [createPost] and [updatePost] store the caller's [status],
    [tiktokPostId] and [postedAt] as they come: the values the row takes
    (a given key, else the default of the column or the old value) have to
    agree.  A [publish] whose remote call succeeds sets all three; one
    whose call fails sets [status] alone, so it must not be the publish of
    a post that is [posted].  The sweep writes no post. *)
Definition keeps_round_trip (op : Operation) (w : World) : Prop :=
  match op with
  | OpCreatePost postData =>
      default (Some Draft) (ins_status postData) = Some Posted ↔
      is_Some (default None (ins_tiktokPostId postData)) ∧
      is_Some (default None (ins_postedAt postData))
  | OpUpdatePost id updates =>
      ∀ p, p ∈ db_posts (w_db w) → post_id p = id →
        default (post_status p) (set_status updates) = Some Posted ↔
        is_Some (default (post_tiktokPostId p) (set_tiktokPostId updates)) ∧
        is_Some (default (post_postedAt p) (set_postedAt updates))
  | OpPublish Api req postId =>
      ∀ post tiktokAccount message e,
        lookup_post (w_db w) postId = Some post →
        lookup_account (w_db w) (post_tiktokAccountId post) = Some tiktokAccount →
        publish_call Api req w post tiktokAccount = (inl message, e) →
        ∀ p, p ∈ db_posts (w_db w) → post_id p = postId → post_status p ≠ Some Posted
  | OpSyncAnalytics _ => True
  end.

(** ** The specification's sentences where the program departs from them *)

(** A failed publish "leaves the remote post identifier null". *)
Definition failed_publish_leaves_id_null (Api : ApiClass) (req : Request)
    (postId : Z) (w : World) : Prop :=
  ∀ post tiktokAccount message e,
    lookup_post (w_db w) postId = Some post →
    lookup_account (w_db w) (post_tiktokAccountId post) = Some tiktokAccount →
    publish_call Api req w post tiktokAccount = (inl message, e) →
    ∃ w' post',
      publish Api req postId w = (inl message, w') ∧
      fst (publish_route Api req postId w) = mkResponse 500 (JsonMessage message) ∧
      lookup_post (w_db w') postId = Some post' ∧
      post_status post' = Some Failed ∧
      post_errorMessage post' = Some message ∧
      post_tiktokPostId post' = None.

(** A successful publish of a [draft] or [failed] post "clears
    errorMessage". *)
Definition successful_publish_clears_error (Api : ApiClass) (req : Request)
    (postId : Z) (w : World) : Prop :=
  ∀ post tiktokAccount result e,
    lookup_post (w_db w) postId = Some post →
    post_status post = Some Draft ∨ post_status post = Some Failed →
    lookup_account (w_db w) (post_tiktokAccountId post) = Some tiktokAccount →
    publish_call Api req w post tiktokAccount = (inr result, e) →
    ∃ w' post',
      publish Api req postId w = (inr (mkResponse 200 (JsonPost (Some post'))), w') ∧
      lookup_post (w_db w') postId = Some post' ∧
      post_status post' = Some Posted ∧
      post_tiktokPostId post' = Some (publish_id result) ∧
      post_postedAt post' = Some (now e) ∧
      post_errorMessage post' = None.

(** [publish] answers 404, touching nothing, "when the post is absent, and
    also when the account is absent or inactive". *)
Definition inactive_account_is_not_found (Api : ApiClass) (req : Request)
    (postId : Z) (w : World) : Prop :=
  (lookup_post (w_db w) postId = None ∨
   ∃ post, lookup_post (w_db w) postId = Some post ∧
     (lookup_account (w_db w) (post_tiktokAccountId post) = None ∨
      ∃ tiktokAccount,
        lookup_account (w_db w) (post_tiktokAccountId post) = Some tiktokAccount ∧
        acct_isActive tiktokAccount = Some false)) →
  res_status (fst (publish_route Api req postId w)) = 404 ∧
  snd (publish_route Api req postId w) = w.

(** ** Stand-ins for the remote platform *)

(** A platform that rejects every call with [message]. *)
Definition Unavailable (message : string) : ApiClass := λ accessToken,
  {| postVideoFromUrl e _ _ := (inl message, e);
     getVideoAnalytics e _ := (inl message, e) |}.

(** A platform that knows the videos of [catalog] and whose query fails for
    the ids in [down]; it publishes like the mock. *)
Definition Catalog (catalog : gmap string TikTokAnalytics) (down : list string)
    : ApiClass := λ accessToken,
  {| postVideoFromUrl := postVideoFromUrl (MockTikTokApiService accessToken);
     getVideoAnalytics e videoIds :=
       if decide (Exists (λ id, id ∈ down) videoIds)
       then (inl "Failed to get analytics: Service Unavailable", e)
       else (inr (filter (λ kv, kv.1 ∈ videoIds) catalog), e) |}.

(** ** Sample data *)

Definition env0 : Env := mkEnv (λ n, 1000 + Z.of_nat n) 0 (λ _ _, 7) 0.

Definition req0 : Request := mkRequest "http" (Some "localhost:3000").

Definition account (id : Z) (isActive : option bool) : TikTokAccount :=
  mkTikTokAccount id mockUserId "mock_user_123" "testuser" (Some "Test User") None
    (Some 1500) (Some 300) (Some 25000) (Some 42) "token-1" None None isActive
    (Some 1) (Some 1).

(** A post of the demo user on account 1, public, with the default
    toggles. *)
Definition sample_post (id : Z) (status : PostStatus) (postedAt : option Timestamp)
    (tiktokPostId errorMessage : option string) : Post :=
  mkPost id mockUserId 1 "My video" None (Some []) "/uploads/clip.mp4" None
    (Some status) None postedAt tiktokPostId (Some Public)
    (Some true) (Some true) (Some true) errorMessage (Some (10 + id)) (Some (10 + id)).

Definition draft_post : Post := sample_post 1 Draft None None None.
Definition failed_post : Post := sample_post 2 Failed None None (Some "Request timed out").
Definition posted_post : Post := sample_post 3 Posted (Some 500) (Some "video-3") None.

Definition world_of (posts : list Post) (accounts : list TikTokAccount) : World :=
  mkWorld (mkDb posts accounts [] 10 1) env0 [].

Definition w_sample : World :=
  world_of [draft_post; failed_post; posted_post] [account 1 (Some true)].

(** The same posts on an account that was deactivated. *)
Definition w_inactive : World :=
  world_of [draft_post; failed_post; posted_post] [account 1 (Some false)].

(** The form of [POST /api/posts] with [status=posted] and nothing else. *)
Definition insert_posted : InsertPost :=
  mkInsertPost mockUserId 1 "My video" None (Some (Some [])) "/uploads/clip.mp4" None
    (Some (Some Posted)) None None None None None None None None.

Definition w_start : World := mkWorld (mkDb [] [account 1 (Some true)] [] 1 1) env0 [].

(** Three posted posts; the platform knows the first and the third and is
    down for the second. *)
Definition three_posted : list Post :=
  [ sample_post 1 Posted (Some 500) (Some "video-1") None;
    sample_post 2 Posted (Some 501) (Some "video-2") None;
    sample_post 3 Posted (Some 502) (Some "video-3") None ].

Definition w_three : World := world_of three_posted [account 1 (Some true)].

Definition metrics_13 : gmap string TikTokAnalytics :=
  {[ "video-1" := mkTikTokAnalytics 10 2 1 100 5 9000;
     "video-3" := mkTikTokAnalytics 30 6 3 300 15 12000 ]}.

(** ** More of server/storage.ts *)

(** [deletePost].  [post_analytics.post_id] references [posts.id] with
    [onDelete: "cascade"]: the analytics rows of a deleted post go with
    it.  The trace has no event for a delete. *)
Definition deletePost (id : Z) : M unit :=
  d ← get_db;
  if decide (rows_of_post d id = []) then mret () else
  put_db (mkDb (filter (λ p, post_id p ≠ id) (db_posts d))
               (db_tiktokAccounts d)
               (filter (λ r, pa_postId r ≠ id) (db_postAnalytics d))
               (db_posts_id_seq d) (db_postAnalytics_id_seq d)).

(** [deleteTikTokAccount].  [posts.tiktok_account_id] references
    [tiktok_accounts.id] with [onDelete: "cascade"]: the posts of a deleted
    account are deleted, and their analytics rows after them. *)
Definition deleteTikTokAccount (id : Z) : M unit :=
  d ← get_db;
  if decide (rows_of_account d id = []) then mret () else
  let deleted := post_id <$> filter (λ p, post_tiktokAccountId p = id) (db_posts d) in
  put_db (mkDb (filter (λ p, post_tiktokAccountId p ≠ id) (db_posts d))
               (filter (λ a, acct_id a ≠ id) (db_tiktokAccounts d))
               (filter (λ r, pa_postId r ∉ deleted) (db_postAnalytics d))
               (db_posts_id_seq d) (db_postAnalytics_id_seq d)).

(** ** More of server/simpleRoutes.ts *)

Inductive AnalyticsJson :=
  | AnalyticsMessage (message : string)
  | AnalyticsRow (analytics : PostAnalytics).

(** [GET /api/posts/:id/analytics], for the parsed [postId]: the status
    and the body of the answer. *)
Definition analytics_route (postId : Z) : World → (Z * AnalyticsJson) * World := λ w,
  match getPostAnalytics postId w with
  | (inr (Some analytics), w') => ((200, AnalyticsRow analytics), w')
  | (inr None, w') => ((404, AnalyticsMessage "Analytics not found"), w')
  | (inl error, w') =>
      ((500, AnalyticsMessage "Failed to fetch analytics"),
       snd (console_error "Error fetching analytics:" error w'))
  end.


(** [DELETE /api/posts/:id]: the status and the message of the answer;
    [res.status(204).send()] has no body. *)
Definition delete_route (postId : Z) : World → (Z * option string) * World := λ w,
  match deletePost postId w with
  | (inr _, w') => ((204, None), w')
  | (inl error, w') =>
      ((500, Some "Failed to delete post"),
       snd (console_error "Error deleting post:" error w'))
  end.

(** ** server/server.ts: the sweep of the stand-alone server *)

(** [Math.floor(Math.random() * k)] *)
Definition Math_random_floor (k : Z) : M Z := λ w,
  (inr (random_below (w_env w) k), mkWorld (w_db w) (draw (w_env w)) (w_trace w)).

(** The body of the loop: the upsert is not in a [try] of its own. *)
Definition server_sync_post (post : Post) : M unit :=
  viewCount ← Math_random_floor 10000;
  likeCount ← Math_random_floor 1000;
  commentCount ← Math_random_floor 100;
  shareCount ← Math_random_floor 50;
  playDuration ← Math_random_floor 60000;
  averagePlayDuration ← Math_random_floor 30000;
  profileViewCount ← Math_random_floor 500;
  upsertPostAnalytics
    {| ia_postId := post_id post;
       ia_viewCount := Some (Some viewCount);
       ia_likeCount := Some (Some likeCount);
       ia_commentCount := Some (Some commentCount);
       ia_shareCount := Some (Some shareCount);
       ia_playDuration := Some (Some playDuration);
       ia_averagePlayDuration := Some (Some averagePlayDuration);
       ia_profileViewCount := Some (Some profileViewCount) |};;
  mret ().

(** [app.post('/api/sync-analytics', ...)] of [server.ts]. *)
Definition server_sync_analytics_route : World → Response * World := λ w,
  match (posts ← getPosts "user123";
         let publishedPosts := filter (λ post, post_status post = Some Posted) posts in
         for_of publishedPosts server_sync_post;;
         mret (mkResponse 200 (JsonMessage "Analytics synced successfully"))) w with
  | (inr res, w') => (res, w')
  | (inl error, w') =>
      (mkResponse 500 (JsonMessage "Failed to sync analytics"),
       snd (console_error "Error syncing analytics:" error w'))
  end.

(** ** server/server.ts: publish and analytics *)

(** [MockTikTokApiService.postVideo()]: no request is sent. *)
Definition mock_postVideo : M TikTokPostResponse :=
  t ← new_Date;
  mret (mkTikTokPostResponse ("mock_post_" +:+ pretty t)).

Inductive PublishJson :=
  | PublishMessage (message : string)
  | Published (message tiktokPostId : string).

(** [app.post('/api/posts/:id/publish', ...)] of [server.ts], for the
    parsed [postId].  The [postInfo] it builds is not used. *)
Definition server_publish_route (postId : Z) : World → (Z * PublishJson) * World := λ w,
  match (post ← getPost postId;
         match post with
         | None => mret (404, PublishMessage "Post not found")
         | Some post =>
             result ← mock_postVideo;
             postedAt ← new_Date;
             updatePost postId (status_posted (publish_id result) postedAt);;
             mret (200, Published "Post published successfully" (publish_id result))
         end) w with
  | (inr res, w') => (res, w')
  | (inl error, w') =>
      ((500, PublishMessage "Failed to publish post"),
       snd (console_error "Error publishing post:" error w'))
  end.

(** [app.get('/api/posts/:id/analytics', ...)] of [server.ts]: when no
    row is stored it upserts one of random numbers and answers with it. *)
Definition server_analytics_route (postId : Z) : World → (Z * AnalyticsJson) * World := λ w,
  match (analytics ← getPostAnalytics postId;
         match analytics with
         | None =>
             viewCount ← Math_random_floor 10000;
             likeCount ← Math_random_floor 1000;
             commentCount ← Math_random_floor 100;
             shareCount ← Math_random_floor 50;
             playDuration ← Math_random_floor 60000;
             averagePlayDuration ← Math_random_floor 30000;
             profileViewCount ← Math_random_floor 500;
             mockAnalytics ← upsertPostAnalytics
               {| ia_postId := postId;
                  ia_viewCount := Some (Some viewCount);
                  ia_likeCount := Some (Some likeCount);
                  ia_commentCount := Some (Some commentCount);
                  ia_shareCount := Some (Some shareCount);
                  ia_playDuration := Some (Some playDuration);
                  ia_averagePlayDuration := Some (Some averagePlayDuration);
                  ia_profileViewCount := Some (Some profileViewCount) |};
             mret (200, AnalyticsRow mockAnalytics)
         | Some analytics => mret (200, AnalyticsRow analytics)
         end) w with
  | (inr res, w') => (res, w')
  | (inl error, w') =>
      ((500, AnalyticsMessage "Failed to fetch analytics"),
       snd (console_error "Error fetching analytics:" error w'))
  end.

(** ** server/services/tiktokApi.ts: the service over HTTP *)

(** What a [catch] of the service reads of a failed request:
    [error.response?.data?.error?.message] and [error.message]. *)
Record AxiosError := mkAxiosError {
  api_error_message : option string;
  transport_message : string
}.

(** [error.response?.data?.error?.message || error.message]: a missing or
    empty message of the platform gives way to the transport's. *)
Definition failure_reason (error : AxiosError) : string :=
  match api_error_message error with
  | Some message => if decide (message = "") then transport_message error else message
  | None => transport_message error
  end.

(** A video of [response.data.data.videos]; a count may be missing. *)
Record Video := mkVideo {
  video_id : string;
  like_count : option Z;
  comment_count : option Z;
  share_count : option Z;
  view_count : option Z;
  video_profile_view : option Z;
  video_duration_avg : option Z
}.

(** The two requests the routes cause, as the platform answers them: the
    publish init ([PULL_FROM_URL]) and the video query, each with the
    bearer token and what the request body carries. *)
Record Axios := mkAxios {
  post_publish_init :
    Env → string → PostInfo → string → (AxiosError + TikTokPostResponse) * Env;
  post_video_query :
    Env → string → list string → nat → string → (AxiosError + option (list Video)) * Env
}.

(** [video.like_count || 0] and the like. *)
Definition video_metrics (video : Video) : TikTokAnalytics :=
  {| likes := default 0 (like_count video);
     comments := default 0 (comment_count video);
     shares := default 0 (share_count video);
     views := default 0 (view_count video);
     profile_view := default 0 (video_profile_view video);
     video_view_duration_avg := default 0 (video_duration_avg video) |}.

(** [videos.forEach(video => { analytics[video.id] = ... })] *)
Definition analytics_of_videos (videos : list Video) : gmap string TikTokAnalytics :=
  foldl (λ analytics video, <[video_id video := video_metrics video]> analytics) ∅ videos.

(** [class TikTokApiService], over the answers of the platform. *)
Definition TikTokApiService_over (axios : Axios) : ApiClass := λ accessToken,
  {| postVideoFromUrl e videoUrl postInfo :=
       match post_publish_init axios e accessToken postInfo videoUrl with
       | (inr data, e') => (inr data, e')
       | (inl error, e') =>
           (inl ("Failed to post video from URL: " +:+ failure_reason error), e')
       end;
     getVideoAnalytics e videoIds :=
       let search_id := pretty (now e) in
       match post_video_query axios (tick e) accessToken videoIds (length videoIds)
               search_id with
       | (inr videos, e') => (inr (analytics_of_videos (default [] videos)), e')
       | (inl error, e') =>
           (inl ("Failed to get analytics: " +:+ failure_reason error), e')
       end |}.

(** ** Well-formed tables *)

(** The key of [posts] and its sequence: ids are distinct and below the
    next value of the sequence. *)
Definition posts_wf (d : Db) : Prop :=
  posts_primary_key d ∧ ∀ p, p ∈ db_posts d → post_id p < db_posts_id_seq d.

(** Every post references an account that exists. *)
Definition accounts_exist (d : Db) : Prop :=
  ∀ p, p ∈ db_posts d → is_Some (lookup_account d (post_tiktokAccountId p)).

(** The rows an insert of [postData] references exist: its account and
    its user, who owns that account (an account row references its user in
    turn).  The foreign keys of [posts] then accept the row. *)
Definition references_exist (d : Db) (postData : InsertPost) : Prop :=
  match lookup_account d (ins_tiktokAccountId postData) with
  | Some tiktokAccount => acct_userId tiktokAccount = ins_userId postData
  | None => False
  end.

(** The worlds the program reaches by the statements whose values it
    fixes itself or the database accepts: it starts without posts, creates
    posts whose references exist, publishes, sweeps, and deletes posts and
    accounts.  [updatePost] with keys of the caller's choice is not among
    them. *)
Inductive lifecycle : World → Prop :=
  | lifecycle_start accounts e :
      lifecycle (mkWorld (mkDb [] accounts [] 1 1) e [])
  | lifecycle_createPost postData w :
      lifecycle w → references_exist (w_db w) postData →
      lifecycle (snd (createPost postData w))
  | lifecycle_publish Api req postId w :
      lifecycle w → lifecycle (snd (publish_route Api req postId w))
  | lifecycle_sync Api w :
      lifecycle w → lifecycle (snd (sync_analytics_route Api w))
  | lifecycle_deletePost id w :
      lifecycle w → lifecycle (snd (deletePost id w))
  | lifecycle_deleteTikTokAccount id w :
      lifecycle w → lifecycle (snd (deleteTikTokAccount id w)).

(** [Math.random()] is in [0, 1): a draw scaled by a positive [k] and
    floored is in [0, k). *)
Definition random_in_range (e : Env) : Prop :=
  ∀ n k, 0 < k → 0 ≤ env_random e n k < k.

(** The events a sweep may add. *)
Definition is_sweep_event (ev : Event) : Prop :=
  match ev with
  | EvGetVideoAnalytics _ _ | EvUpsertPostAnalytics _ | EvConsoleError _ _ => True
  | _ => False
  end.

(** The body of the [forEach] of the mock's [getVideoAnalytics]. *)
Definition mock_step
    : gmap string TikTokAnalytics * Env → string → gmap string TikTokAnalytics * Env :=
  λ '(analytics, e) id,
    let '(metrics, e') := mock_metrics e in (<[id := metrics]> analytics, e').

(** The ranges of the metrics the mock draws. *)
Definition in_mock_range (metrics : TikTokAnalytics) : Prop :=
  0 ≤ likes metrics < 10000 ∧
  0 ≤ comments metrics < 1000 ∧
  0 ≤ shares metrics < 500 ∧
  0 ≤ views metrics < 100000 ∧
  0 ≤ profile_view metrics < 200 ∧
  0 ≤ video_view_duration_avg metrics < 30000.

(** A platform that rejects the publish init with a message of its own
    and knows two videos, one without counts. *)
Definition axios0 : Axios :=
  {| post_publish_init e _ _ _ :=
       (inl (mkAxiosError (Some "spam_risk_too_many_posts")
                          "Request failed with status code 403"), e);
     post_video_query e _ _ _ _ :=
       (inr (Some [ mkVideo "video-1" (Some 10) (Some 2) None (Some 100) None None;
                    mkVideo "video-9" None None None None None None ]), e) |}.

(** A post of the stand-alone server's user, [user123]. *)
Definition server_post (id : Z) (status : PostStatus) : Post :=
  mkPost id "user123" 1 "My video" None (Some []) "/uploads/clip.mp4" None
    (Some status) None None None (Some Public)
    (Some true) (Some true) (Some true) None (Some (10 + id)) (Some (10 + id)).

Definition w_server : World :=
  world_of [server_post 1 Draft; server_post 2 Posted; server_post 3 Posted]
           [account 1 (Some true)].

(** An environment whose generator always draws the largest value. *)
Definition env_max : Env := mkEnv (λ n, 1000 + Z.of_nat n) 0 (λ _ k, k - 1) 0.

(** The form of [POST /api/posts] with nothing but the required keys. *)
Definition insert_draft : InsertPost :=
  mkInsertPost mockUserId 1 "My video" None (Some (Some [])) "/uploads/clip.mp4" None
    None None None None None None None None None.

(** A post is created, published through the mock and swept. *)
Definition w_reached : World :=
  run (OpSyncAnalytics MockTikTokApiService)
    (run (OpPublish MockTikTokApiService req0 1)
       (run (OpCreatePost insert_draft) w_start)).

(** Two posts are created; the first is published and swept, the second
    deleted. *)
Definition w_life : World :=
  snd (deletePost 2
    (snd (sync_analytics_route MockTikTokApiService
      (snd (publish_route MockTikTokApiService req0 1
        (snd (createPost insert_draft (snd (createPost insert_draft w_start))))))))).

(** ** Running a computation *)

Lemma run_bind_inr {A B} (m : M A) (k : A → M B) w a w' :
  m w = (inr a, w') → (m ≫= k) w = k a w'.
Proof. intros H. unfold mbind, M_bind. by rewrite H. Qed.

Lemma run_bind_inl {A B} (m : M A) (k : A → M B) w e w' :
  m w = (inl e, w') → (m ≫= k) w = (inl e, w').
Proof. intros H. unfold mbind, M_bind. by rewrite H. Qed.

Lemma run_try_inr {A} (m : M A) (h : string → M A) w a w' :
  m w = (inr a, w') → try_catch m h w = (inr a, w').
Proof. intros H. unfold try_catch. by rewrite H. Qed.

Lemma run_try_inl {A} (m : M A) (h : string → M A) w e w' :
  m w = (inl e, w') → try_catch m h w = h e w'.
Proof. intros H. unfold try_catch. by rewrite H. Qed.

Ltac run_step lem := erewrite run_bind_inr; [|apply lem].

(** ** Storage lemmas *)

Section storage.
Implicit Types (d : Db) (w : World) (u : PostUpdates) (p : Post).

Lemma run_getPost id w : getPost id w = (inr (lookup_post (w_db w) id), w).
Proof. reflexivity. Qed.

Lemma run_getTikTokAccount id w :
  getTikTokAccount id w = (inr (lookup_account (w_db w) id), w).
Proof. reflexivity. Qed.

Lemma run_await_postVideoFromUrl accessToken apiService videoUrl postInfo w result e :
  postVideoFromUrl apiService (w_env w) videoUrl postInfo = (result, e) →
  await_postVideoFromUrl accessToken apiService videoUrl postInfo w =
    (result, mkWorld (w_db w) e
       (w_trace w ++ [EvPostVideoFromUrl accessToken videoUrl postInfo (w_db w)])).
Proof. intros H. unfold await_postVideoFromUrl. by rewrite H. Qed.

Lemma run_updatePost id u w :
  updatePost id u w =
    (inr (lookup_post (db_update_post (w_db w) id u (now (w_env w))) id),
     mkWorld (db_update_post (w_db w) id u (now (w_env w)))
             (tick (w_env w)) (w_trace w ++ [EvUpdatePost id u])).
Proof. reflexivity. Qed.

Lemma head_filter_update id id' u t (rows : list Post) :
  head (filter (λ p, post_id p = id') (update_posts_where_id id u t rows)) =
    (λ p, if decide (post_id p = id) then set_post u t p else p)
      <$> head (filter (λ p, post_id p = id') rows).
Proof.
  induction rows as [|p rows IH]; [done|].
  unfold update_posts_where_id in *. rewrite fmap_cons, !filter_cons.
  destruct (decide (post_id p = id)) as [Hid|Hid].
  - replace (post_id (set_post u t p)) with (post_id p) by done.
    destruct (decide (post_id p = id')); simpl; [|done].
    by rewrite decide_True.
  - destruct (decide (post_id p = id')); simpl; [|done].
    by rewrite decide_False.
Qed.

(** The updated row is the old one with the keys of [u] overwritten. *)
Lemma lookup_post_update d id u t :
  lookup_post (db_update_post d id u t) id = set_post u t <$> lookup_post d id.
Proof.
  unfold lookup_post, rows_of_post, db_update_post. simpl.
  rewrite head_filter_update.
  destruct (head _) as [p|] eqn:Hp; [|done]. simpl.
  apply head_Some_elem_of, list_elem_of_filter in Hp as [Hp _].
  by rewrite decide_True.
Qed.

(** Rows under another key are left alone. *)
Lemma lookup_post_update_ne d id id' u t :
  id ≠ id' → lookup_post (db_update_post d id u t) id' = lookup_post d id'.
Proof.
  intros Hne. unfold lookup_post, rows_of_post, db_update_post. simpl.
  rewrite head_filter_update.
  destruct (head _) as [p|] eqn:Hp; [|done]. simpl.
  apply head_Some_elem_of, list_elem_of_filter in Hp as [Hp _].
  rewrite decide_False; [done|congruence].
Qed.

Lemma elem_of_update_posts p' id u t (rows : list Post) :
  p' ∈ update_posts_where_id id u t rows ↔
  ∃ p, p ∈ rows ∧ p' = if decide (post_id p = id) then set_post u t p else p.
Proof.
  unfold update_posts_where_id. rewrite list_elem_of_fmap.
  split; intros (p & H1 & H2); exists p; auto.
Qed.

(** Two updates of the same key, seen from the table. *)
Lemma elem_of_update_twice p' id u1 t1 u2 t2 (rows : list Post) :
  p' ∈ update_posts_where_id id u2 t2 (update_posts_where_id id u1 t1 rows) ↔
  ∃ p, p ∈ rows ∧
    p' = if decide (post_id p = id) then set_post u2 t2 (set_post u1 t1 p) else p.
Proof.
  rewrite elem_of_update_posts. split.
  - intros (q & Hq & ->). apply elem_of_update_posts in Hq as (p & Hp & ->).
    exists p. split; [done|].
    destruct (decide (post_id p = id)) as [Hid|Hid].
    + replace (post_id (set_post u1 t1 p)) with (post_id p) by done.
      by rewrite decide_True.
    + by rewrite decide_False.
  - intros (p & Hp & ->).
    exists (if decide (post_id p = id) then set_post u1 t1 p else p). split.
    + apply elem_of_update_posts. by exists p.
    + destruct (decide (post_id p = id)) as [Hid|Hid].
      * replace (post_id (set_post u1 t1 p)) with (post_id p) by done.
        by rewrite decide_True.
      * by rewrite decide_False.
Qed.

End storage.

(** ** The runs of [publish] *)

Section publish_runs.
Context (Api : ApiClass) (req : Request) (postId : Z) (w : World).
Context (post : Post) (tiktokAccount : TikTokAccount).
Context (Hpost : lookup_post (w_db w) postId = Some post).
Context (Haccount : lookup_account (w_db w) (post_tiktokAccountId post) = Some tiktokAccount).

Lemma publish_resolves result e :
  publish_call Api req w post tiktokAccount = (inr result, e) →
  publish Api req postId w =
    (inr (mkResponse 200 (JsonPost
            (lookup_post (db_update_post (db_while_posting w postId) postId
                            (status_posted (publish_id result) (now e)) (now (tick e)))
                         postId))),
     mkWorld (db_update_post (db_while_posting w postId) postId
                (status_posted (publish_id result) (now e)) (now (tick e)))
             (tick (tick e))
             (w_trace w ++
                [EvUpdatePost postId status_posting;
                 publish_call_event req post tiktokAccount (db_while_posting w postId);
                 EvUpdatePost postId (status_posted (publish_id result) (now e))])).
Proof.
  intros Hcall. unfold publish.
  run_step run_getPost. rewrite Hpost.
  run_step run_getTikTokAccount. rewrite Haccount.
  run_step run_updatePost.
  erewrite run_try_inr; [|erewrite run_bind_inr;
                           [reflexivity|by apply run_await_postVideoFromUrl]].
  cbn [w_trace]. rewrite <- !app_assoc. reflexivity.
Qed.

Lemma publish_rejects message e :
  publish_call Api req w post tiktokAccount = (inl message, e) →
  publish Api req postId w =
    (inl message,
     mkWorld (db_update_post (db_while_posting w postId) postId
                (status_failed message) (now e))
             (tick e)
             (w_trace w ++
                [EvUpdatePost postId status_posting;
                 publish_call_event req post tiktokAccount (db_while_posting w postId);
                 EvUpdatePost postId (status_failed message)])).
Proof.
  intros Hcall. unfold publish.
  run_step run_getPost. rewrite Hpost.
  run_step run_getTikTokAccount. rewrite Haccount.
  run_step run_updatePost.
  erewrite run_try_inl; [|erewrite run_bind_inl;
                           [reflexivity|by apply run_await_postVideoFromUrl]].
  run_step run_updatePost. unfold throw.
  cbn [w_trace w_db w_env]. rewrite <- !app_assoc. reflexivity.
Qed.

Lemma publish_route_resolves result e :
  publish_call Api req w post tiktokAccount = (inr result, e) →
  publish_route Api req postId w =
    (mkResponse 200 (JsonPost
       (lookup_post (db_update_post (db_while_posting w postId) postId
                       (status_posted (publish_id result) (now e)) (now (tick e)))
                    postId)),
     mkWorld (db_update_post (db_while_posting w postId) postId
                (status_posted (publish_id result) (now e)) (now (tick e)))
             (tick (tick e))
             (w_trace w ++
                [EvUpdatePost postId status_posting;
                 publish_call_event req post tiktokAccount (db_while_posting w postId);
                 EvUpdatePost postId (status_posted (publish_id result) (now e))])).
Proof.
  intros Hcall. unfold publish_route. by rewrite (publish_resolves _ _ Hcall).
Qed.

Lemma publish_route_rejects message e :
  publish_call Api req w post tiktokAccount = (inl message, e) →
  publish_route Api req postId w =
    (mkResponse 500 (JsonMessage message),
     mkWorld (db_update_post (db_while_posting w postId) postId
                (status_failed message) (now e))
             (tick e)
             (w_trace w ++
                [EvUpdatePost postId status_posting;
                 publish_call_event req post tiktokAccount (db_while_posting w postId);
                 EvUpdatePost postId (status_failed message);
                 EvConsoleError "Error publishing post:" message])).
Proof.
  intros Hcall. unfold publish_route. rewrite (publish_rejects _ _ Hcall).
  cbn [snd console_error emit w_trace w_db w_env]. by rewrite <- app_assoc.
Qed.

(** While the call runs, readers see the post as [posting]. *)
Lemma posting_is_committed :
  lookup_post (db_while_posting w postId) postId = Some (set_post status_posting (now (w_env w)) post).
Proof. unfold db_while_posting. by rewrite lookup_post_update, Hpost. Qed.

End publish_runs.

Lemma publish_post_missing Api req postId w :
  lookup_post (w_db w) postId = None →
  publish Api req postId w = (inr (mkResponse 404 (JsonMessage "Post not found")), w).
Proof.
  intros Hpost. unfold publish. run_step run_getPost. by rewrite Hpost.
Qed.

Lemma publish_account_missing Api req postId w post :
  lookup_post (w_db w) postId = Some post →
  lookup_account (w_db w) (post_tiktokAccountId post) = None →
  publish Api req postId w =
    (inr (mkResponse 404 (JsonMessage "TikTok account not found")), w).
Proof.
  intros Hpost Haccount. unfold publish.
  run_step run_getPost. rewrite Hpost.
  run_step run_getTikTokAccount. by rewrite Haccount.
Qed.

(** ** The publish orchestrator *)

(** C9.  The [privacy_level] that publish sends is the specification's
    table applied to the post's [privacyLevel], whatever the other fields
    of the post are: [public] gives PUBLIC_TO_EVERYONE, [friends] gives
    MUTUAL_FOLLOW_FRIEND and [private] gives SELF_ONLY (as does a [null]
    column). *)
Theorem privacy_level_mapping (post : Post) :
  privacy_level (postInfo_of post) =
    from_option privacy_table SELF_ONLY (post_privacyLevel post).
Proof.
  unfold postInfo_of, remote_privacy_level. cbn [privacy_level].
  destruct (post_privacyLevel post) as [[]|]; reflexivity.
Qed.

(** C2, amended.  When the remote call of publish fails, publish stores
    [failed] with the failure's message as [errorMessage], throws the
    failure (the handler answers 500 with the message), and leaves
    [tiktokPostId] as it was: null only if it was null before. *)
Theorem failed_publish_persists_and_raises Api req postId w post tiktokAccount message e :
  lookup_post (w_db w) postId = Some post →
  lookup_account (w_db w) (post_tiktokAccountId post) = Some tiktokAccount →
  publish_call Api req w post tiktokAccount = (inl message, e) →
  ∃ w' post',
    publish Api req postId w = (inl message, w') ∧
    fst (publish_route Api req postId w) = mkResponse 500 (JsonMessage message) ∧
    lookup_post (w_db w') postId = Some post' ∧
    post_status post' = Some Failed ∧
    post_errorMessage post' = Some message ∧
    post_tiktokPostId post' = post_tiktokPostId post.
Proof.
  intros Hpost Haccount Hcall.
  pose proof (publish_rejects Api req postId w post tiktokAccount Hpost Haccount
                message e Hcall) as Hrun.
  eexists _, _. split; [exact Hrun|]. split.
  { unfold publish_route. by rewrite Hrun. }
  cbn [w_db]. rewrite lookup_post_update, (posting_is_committed _ _ _ Hpost).
  split; [reflexivity|]. by repeat split.
Qed.

(** C3, amended.  When the remote call of publish succeeds for a [draft]
    or [failed] post, publish stores [posted], the platform's
    [publish_id] as [tiktokPostId] and the time as [postedAt], and answers
    with the updated post; [errorMessage] is left as it was, so a failed
    post that is published again keeps its old message. *)
Theorem successful_publish_keeps_error Api req postId w post tiktokAccount result e :
  lookup_post (w_db w) postId = Some post →
  post_status post = Some Draft ∨ post_status post = Some Failed →
  lookup_account (w_db w) (post_tiktokAccountId post) = Some tiktokAccount →
  publish_call Api req w post tiktokAccount = (inr result, e) →
  ∃ w' post',
    publish Api req postId w = (inr (mkResponse 200 (JsonPost (Some post'))), w') ∧
    lookup_post (w_db w') postId = Some post' ∧
    post_status post' = Some Posted ∧
    post_tiktokPostId post' = Some (publish_id result) ∧
    post_postedAt post' = Some (now e) ∧
    post_errorMessage post' = post_errorMessage post.
Proof.
  intros Hpost _ Haccount Hcall.
  pose proof (publish_resolves Api req postId w post tiktokAccount Hpost Haccount
                result e Hcall) as Hrun.
  rewrite lookup_post_update, (posting_is_committed _ _ _ Hpost) in Hrun.
  eexists _, _. split; [exact Hrun|].
  cbn [w_db]. rewrite lookup_post_update, (posting_is_committed _ _ _ Hpost).
  split; [reflexivity|]. by repeat split.
Qed.

(** C6, amended.  Publish answers 404 exactly when the post is absent or
    the account row it references is absent, and then it leaves the world
    as it found it: no write, no remote call.  [isActive] is not read. *)
Theorem publish_not_found_iff Api req postId w :
  (res_status (fst (publish_route Api req postId w)) = 404 ↔
   post_or_account_missing (w_db w) postId) ∧
  (post_or_account_missing (w_db w) postId → snd (publish_route Api req postId w) = w).
Proof.
  unfold post_or_account_missing, publish_route.
  destruct (lookup_post (w_db w) postId) as [post|] eqn:Hpost.
  - destruct (lookup_account (w_db w) (post_tiktokAccountId post))
      as [tiktokAccount|] eqn:Haccount.
    + split; [|done].
      destruct (publish_call Api req w post tiktokAccount) as [[message|result] e] eqn:Hcall.
      * rewrite (publish_rejects _ _ _ _ _ _ Hpost Haccount _ _ Hcall). by cbn.
      * rewrite (publish_resolves _ _ _ _ _ _ Hpost Haccount _ _ Hcall). by cbn.
    + by rewrite (publish_account_missing _ _ _ _ _ Hpost Haccount).
  - by rewrite (publish_post_missing _ _ _ _ Hpost).
Qed.

(** C7.  In an invocation of publish that reaches the remote call, the
    write of [posting] is on the trace before the call, which is sent while
    the database shows the post as [posting]; the write of the final status
    ([posted] or [failed]) follows the call, and the world that publish
    leaves when it answers holds that status. *)
Theorem publish_writes_are_ordered Api req postId w post tiktokAccount :
  lookup_post (w_db w) postId = Some post →
  lookup_account (w_db w) (post_tiktokAccountId post) = Some tiktokAccount →
  let w' := snd (publish_route Api req postId w) in
  let committed := db_while_posting w postId in
  post_status <$> lookup_post committed postId = Some (Some Posting) ∧
  match publish_call Api req w post tiktokAccount with
  | (inr result, e) =>
      w_trace w' = w_trace w ++
        [EvUpdatePost postId status_posting;
         publish_call_event req post tiktokAccount committed;
         EvUpdatePost postId (status_posted (publish_id result) (now e))] ∧
      post_status <$> lookup_post (w_db w') postId = Some (Some Posted)
  | (inl message, e) =>
      w_trace w' = w_trace w ++
        [EvUpdatePost postId status_posting;
         publish_call_event req post tiktokAccount committed;
         EvUpdatePost postId (status_failed message);
         EvConsoleError "Error publishing post:" message] ∧
      post_status <$> lookup_post (w_db w') postId = Some (Some Failed)
  end.
Proof.
  intros Hpost Haccount w' committed. subst w' committed. split.
  { by rewrite (posting_is_committed _ _ _ Hpost). }
  destruct (publish_call Api req w post tiktokAccount) as [[message|result] e] eqn:Hcall.
  - rewrite (publish_route_rejects _ _ _ _ _ _ Hpost Haccount _ _ Hcall).
    cbn [snd w_trace w_db]. split; [done|].
    by rewrite lookup_post_update, (posting_is_committed _ _ _ Hpost).
  - rewrite (publish_route_resolves _ _ _ _ _ _ Hpost Haccount _ _ Hcall).
    cbn [snd w_trace w_db]. split; [done|].
    by rewrite lookup_post_update, (posting_is_committed _ _ _ Hpost).
Qed.

(** C10.  Publish does not look at the status of the post.  Whatever it
    is ([draft], [scheduled], [posting], [posted], [failed] or null), for
    an existing post with an existing account publish writes [posting],
    sends the remote call, and on success overwrites [tiktokPostId] and
    [postedAt]; the only failure it answers is the remote call's own. *)
Theorem publish_has_no_status_precondition Api req postId w post tiktokAccount
    (status : option PostStatus) :
  lookup_post (w_db w) postId = Some post →
  post_status post = status →
  lookup_account (w_db w) (post_tiktokAccountId post) = Some tiktokAccount →
  let w' := snd (publish_route Api req postId w) in
  (∃ later,
     w_trace w' = w_trace w ++
       EvUpdatePost postId status_posting ::
       publish_call_event req post tiktokAccount (db_while_posting w postId) :: later) ∧
  post_status <$> lookup_post (db_while_posting w postId) postId = Some (Some Posting) ∧
  match publish_call Api req w post tiktokAccount with
  | (inr result, e) =>
      fst (publish_route Api req postId w)
        = mkResponse 200 (JsonPost (lookup_post (w_db w') postId)) ∧
      ∃ post',
        lookup_post (w_db w') postId = Some post' ∧
        post_status post' = Some Posted ∧
        post_tiktokPostId post' = Some (publish_id result) ∧
        post_postedAt post' = Some (now e)
  | (inl message, _) =>
      fst (publish_route Api req postId w) = mkResponse 500 (JsonMessage message)
  end.
Proof.
  intros Hpost _ Haccount w'. subst w'.
  split; [|split; [by rewrite (posting_is_committed _ _ _ Hpost)|]];
    destruct (publish_call Api req w post tiktokAccount) as [[message|result] e] eqn:Hcall.
  - rewrite (publish_route_rejects _ _ _ _ _ _ Hpost Haccount _ _ Hcall).
    cbn [snd w_trace]. eauto.
  - rewrite (publish_route_resolves _ _ _ _ _ _ Hpost Haccount _ _ Hcall).
    cbn [snd w_trace]. eauto.
  - by rewrite (publish_route_rejects _ _ _ _ _ _ Hpost Haccount _ _ Hcall).
  - rewrite (publish_route_resolves _ _ _ _ _ _ Hpost Haccount _ _ Hcall).
    cbn [fst snd w_db]. split; [done|].
    rewrite lookup_post_update, (posting_is_committed _ _ _ Hpost).
    eexists. split; [reflexivity|]. by repeat split.
Qed.

(** The mock never rejects a publish. *)
Lemma mock_publish_call req w post tiktokAccount :
  publish_call MockTikTokApiService req w post tiktokAccount =
    (inr (mkTikTokPostResponse ("mock_post_" +:+ pretty (now (tick (w_env w))))),
     tick (tick (w_env w))).
Proof. reflexivity. Qed.

(** With the service the routes construct, [MockTikTokApiService], the
    remote call cannot fail: publish of an existing post with an existing
    account answers 200 with the post, now [posted] under the id
    [mock_post_<clock>]. *)
Theorem publish_through_mock req postId w post tiktokAccount :
  lookup_post (w_db w) postId = Some post →
  lookup_account (w_db w) (post_tiktokAccountId post) = Some tiktokAccount →
  ∃ post',
    fst (publish_route MockTikTokApiService req postId w)
      = mkResponse 200 (JsonPost (Some post')) ∧
    lookup_post (w_db (snd (publish_route MockTikTokApiService req postId w))) postId
      = Some post' ∧
    post_status post' = Some Posted ∧
    post_tiktokPostId post' = Some ("mock_post_" +:+ pretty (now (tick (w_env w)))).
Proof.
  intros Hpost Haccount.
  rewrite (publish_route_resolves _ _ _ _ _ _ Hpost Haccount _ _
             (mock_publish_call req w post tiktokAccount)).
  cbn [fst snd w_db publish_id].
  rewrite lookup_post_update, (posting_is_committed _ _ _ Hpost).
  eexists. split; [reflexivity|]. by repeat split.
Qed.

(** ** The analytics repository *)

(** [post_analytics] has no unique index on [post_id]. *)
Lemma postAnalytics_has_no_arbiter : has_unique_index postAnalytics "post_id" = false.
Proof. reflexivity. Qed.

(** The sibling upsert, [upsertUser], names the primary key of [users]. *)
Lemma users_has_arbiter : has_unique_index users "id" = true.
Proof. reflexivity. Qed.

Lemma upsert_rejected (analyticsData : InsertPostAnalytics) (w : World) :
  upsertPostAnalytics analyticsData w =
    (inl no_arbiter_index,
     mkWorld (w_db w) (tick (w_env w))
             (w_trace w ++ [EvUpsertPostAnalytics analyticsData])).
Proof.
  unfold upsertPostAnalytics, insert_onConflictDoUpdate_postId.
  rewrite postAnalytics_has_no_arbiter. reflexivity.
Qed.

(** C5.  [upsertPostAnalytics] names [post_id] as the conflict target, and
    [post_analytics] has no unique index on it: the statement is rejected
    for every post id and every table content, so no row is inserted when
    none exists and none is overwritten when one does. *)
Theorem upsertPostAnalytics_is_rejected (analyticsData : InsertPostAnalytics) (w : World) :
  ∃ w',
    upsertPostAnalytics analyticsData w = (inl no_arbiter_index, w') ∧
    db_postAnalytics (w_db w') = db_postAnalytics (w_db w) ∧
    getPostAnalytics (ia_postId analyticsData) w'
      = (inr (head (rows_of_analytics (w_db w) (ia_postId analyticsData))), w').
Proof.
  eexists. split; [apply upsert_rejected|]. split; reflexivity.
Qed.

(** ** The upsert on a table that has the unique index

    What [insert ... onConflictDoUpdate] does once [post_id] is a unique
    column: the reading of the statement that the specification gives. *)

Section unique_index.
Context (table : TableSchema) (Hunique : has_unique_index table "post_id" = true).

Lemma filter_key_fresh (rows : list PostAnalytics) (k : Z) :
  filter (λ r, pa_postId r = k) rows = [] → k ∉ pa_postId <$> rows.
Proof.
  intros Hnone Hin. apply list_elem_of_fmap in Hin as (r & -> & Hin).
  assert (r ∈ filter (λ r', pa_postId r' = pa_postId r) rows) as Hr
    by by apply list_elem_of_filter.
  rewrite Hnone in Hr. by apply elem_of_nil in Hr.
Qed.

Lemma filter_key_unique (rows : list PostAnalytics) (k : Z) (r : PostAnalytics) :
  NoDup (pa_postId <$> rows) →
  head (filter (λ r, pa_postId r = k) rows) = Some r →
  filter (λ r, pa_postId r = k) rows = [r].
Proof.
  induction rows as [|r0 rows IH]; [done|].
  rewrite fmap_cons, NoDup_cons, filter_cons. intros [Hfresh Hrows].
  destruct (decide (pa_postId r0 = k)) as [Hk|Hk]; [|by apply IH].
  cbn. intros [= ->]. f_equal.
  destruct (filter (λ r, pa_postId r = k) rows) as [|r1 rest] eqn:Hrest; [done|].
  destruct Hfresh.
  assert (r1 ∈ filter (λ r, pa_postId r = k) rows) as Hr1
    by (rewrite Hrest; apply list_elem_of_here).
  apply list_elem_of_filter in Hr1 as [Hk1 Hr1].
  rewrite Hk, <- Hk1. by apply list_elem_of_fmap_2.
Qed.

Lemma set_rows_keys (data : InsertPostAnalytics) t (rows : list PostAnalytics) :
  pa_postId <$> ((λ r, if decide (pa_postId r = ia_postId data)
                       then set_analytics data t r else r) <$> rows)
  = pa_postId <$> rows.
Proof.
  rewrite <- list_fmap_compose. apply list_fmap_ext. intros _ r _. cbn.
  by destruct (decide (pa_postId r = ia_postId data)).
Qed.

Lemma set_rows_filter (data : InsertPostAnalytics) t k (rows : list PostAnalytics) :
  filter (λ r, pa_postId r = k)
    ((λ r, if decide (pa_postId r = ia_postId data)
           then set_analytics data t r else r) <$> rows)
  = (λ r, if decide (pa_postId r = ia_postId data) then set_analytics data t r else r)
      <$> filter (λ r, pa_postId r = k) rows.
Proof.
  induction rows as [|r rows IH]; [done|].
  rewrite fmap_cons, !filter_cons.
  assert (pa_postId (if decide (pa_postId r = ia_postId data)
                     then set_analytics data t r else r) = pa_postId r) as ->
    by by destruct (decide (pa_postId r = ia_postId data)).
  destruct (decide (pa_postId r = k)); by rewrite ?fmap_cons, IH.
Qed.

(** Insert when the post has no row, overwrite the metric fields and the
    timestamp when it has one; afterwards the post has exactly one row,
    the rows of other posts are untouched, and [post_id] is still a key. *)
Lemma upsert_on_unique_index (data : InsertPostAnalytics) (w : World) :
  analytics_key (w_db w) →
  ∃ row w',
    insert_onConflictDoUpdate_postId table data w = (inr row, w') ∧
    row = match head (rows_of_analytics (w_db w) (ia_postId data)) with
          | Some r => set_analytics data (now (w_env w)) r
          | None => insert_analytics_row (db_postAnalytics_id_seq (w_db w)) data
                      (now (tick (w_env w)))
          end ∧
    rows_of_analytics (w_db w') (ia_postId data) = [row] ∧
    (∀ postId, postId ≠ ia_postId data →
       rows_of_analytics (w_db w') postId = rows_of_analytics (w_db w) postId) ∧
    analytics_key (w_db w').
Proof.
  intros Hkey. unfold insert_onConflictDoUpdate_postId, analytics_key in *.
  rewrite Hunique. unfold rows_of_analytics.
  destruct (head (filter (λ r, pa_postId r = ia_postId data) (db_postAnalytics (w_db w))))
    as [r|] eqn:Hhead.
  - eexists _, _. split.
    { unfold mbind, M_bind, new_Date, emit, get_db, put_db, mret, M_ret.
      cbn. unfold rows_of_analytics. rewrite Hhead. reflexivity. }
    cbn. split; [done|]. split; [|split].
    + rewrite set_rows_filter, (filter_key_unique _ _ _ Hkey Hhead). cbn.
      apply head_Some_elem_of, list_elem_of_filter in Hhead as [Hr _].
      by rewrite decide_True.
    + intros k Hk. rewrite set_rows_filter.
      rewrite <- (list_fmap_id (filter _ (db_postAnalytics (w_db w)))) at 2.
      apply list_fmap_ext. intros i r' Hr'.
      apply list_elem_of_lookup_2, list_elem_of_filter in Hr' as [Hk' _].
      rewrite decide_False; [done|congruence].
    + by rewrite set_rows_keys.
  - apply head_None in Hhead.
    eexists _, _. split.
    { unfold mbind, M_bind, new_Date, emit, get_db, put_db, mret, M_ret, defaultNow.
      cbn. unfold rows_of_analytics. rewrite Hhead. reflexivity. }
    cbn. split; [done|]. split; [|split].
    + rewrite filter_app, Hhead, filter_cons. cbn. by rewrite decide_True.
    + intros k Hk. rewrite filter_app, filter_cons. cbn.
      rewrite decide_False by congruence. cbn. by rewrite app_nil_r.
    + rewrite fmap_app. apply NoDup_app. split; [done|]. split.
      * intros k Hin Hk. cbn in Hk. apply list_elem_of_singleton in Hk as ->.
        by apply filter_key_fresh in Hhead.
      * cbn. apply NoDup_singleton.
Qed.

End unique_index.

(** ** The analytics reconciler *)

Section reconciler.
Context (Api : ApiClass).

Lemma run_await_getVideoAnalytics accessToken apiService videoIds w result e :
  getVideoAnalytics apiService (w_env w) videoIds = (result, e) →
  await_getVideoAnalytics accessToken apiService videoIds w =
    (result, mkWorld (w_db w) e (w_trace w ++ [EvGetVideoAnalytics accessToken videoIds])).
Proof. intros H. unfold await_getVideoAnalytics. by rewrite H. Qed.

Lemma skip_run (w : World) :
  (inr (), w) = (inr (), mkWorld (w_db w) (w_env w) (w_trace w ++ [])) :> (string + ()) * World.
Proof. destruct w. cbn. by rewrite app_nil_r. Qed.

(** One iteration never throws and leaves the database alone.  It calls
    the upsert only for its own post and only after a fetch that found an
    entry; for a post with a remote id and an account it sends the fetch,
    and the upsert of the metrics the fetch answers. *)
Lemma sync_post_run (post : Post) (w : World) :
  ∃ evs e,
    sync_post Api post w = (inr (), mkWorld (w_db w) e (w_trace w ++ evs)) ∧
    (∀ data, EvUpsertPostAnalytics data ∈ evs →
       ia_postId data = post_id post ∧ fetch_may_succeed Api (w_db w) post) ∧
    (∀ videoId tiktokAccount,
       post_tiktokPostId post = Some videoId → videoId ≠ "" →
       lookup_account (w_db w) (post_tiktokAccountId post) = Some tiktokAccount →
       EvGetVideoAnalytics (acct_accessToken tiktokAccount) [videoId] ∈ evs ∧
       ∀ analyticsData e' metrics,
         getVideoAnalytics (Api (acct_accessToken tiktokAccount)) (w_env w) [videoId]
           = (inr analyticsData, e') →
         analyticsData !! videoId = Some metrics →
         EvUpsertPostAnalytics (metrics_row post metrics) ∈ evs).
Proof.
  unfold sync_post.
  destruct (post_tiktokPostId post) as [videoId|] eqn:Hid.
  2: { exists [], (w_env w). split; [apply skip_run|].
       split; [by intros ? ?%elem_of_nil|]. intros ? ? ?. congruence. }
  destruct (decide (videoId = "")) as [Hempty|Hempty].
  { exists [], (w_env w). split; [apply skip_run|].
    split; [by intros ? ?%elem_of_nil|]. intros ? ? ? ?. congruence. }
  run_step run_getTikTokAccount.
  destruct (lookup_account (w_db w) (post_tiktokAccountId post))
    as [tiktokAccount|] eqn:Haccount.
  2: { exists [], (w_env w). split; [apply skip_run|].
       split; [by intros ? ?%elem_of_nil|]. intros ? ? _ _ ?. congruence. }
  destruct (getVideoAnalytics (Api (acct_accessToken tiktokAccount)) (w_env w) [videoId])
    as [[message|analyticsData] e] eqn:Hfetch.
  - (* the fetch throws: the error is logged *)
    eexists [_; _], e. split; [|split].
    + erewrite run_try_inl;
        [|erewrite run_bind_inl; [reflexivity|by apply run_await_getVideoAnalytics]].
      unfold console_error, emit. cbn [w_db w_env w_trace].
      by rewrite <- app_assoc.
    + intros data Hin. apply elem_of_cons in Hin as [Hin|Hin]; [done|].
      apply elem_of_cons in Hin as [Hin|Hin]; [done|by apply elem_of_nil in Hin].
    + intros videoId' tiktokAccount' Hid' _ Haccount'.
      assert (videoId' = videoId) as -> by congruence.
      assert (tiktokAccount' = tiktokAccount) as -> by congruence.
      split; [apply list_elem_of_here|]. intros ? ? ? Hanswer. congruence.
  - destruct (analyticsData !! videoId) as [metrics|] eqn:Hentry.
    + (* an entry: the upsert is sent, rejected, and the error is logged *)
      eexists [_; _; _], (tick e). split; [|split].
      * erewrite run_try_inl;
          [|erewrite run_bind_inr; [|by apply run_await_getVideoAnalytics];
            rewrite Hentry; erewrite run_bind_inl;
            [reflexivity|apply upsert_rejected]].
        unfold console_error, emit. cbn [w_db w_env w_trace].
        by rewrite <- !app_assoc.
      * intros data Hin. apply elem_of_cons in Hin as [Hin|Hin]; [done|].
        apply elem_of_cons in Hin as [Hin|Hin].
        -- injection Hin as ->. split; [done|].
           exists videoId, tiktokAccount, (w_env w), analyticsData, e.
           by rewrite Hentry.
        -- apply elem_of_cons in Hin as [Hin|Hin]; [done|by apply elem_of_nil in Hin].
      * intros videoId' tiktokAccount' Hid' _ Haccount'.
        assert (videoId' = videoId) as -> by congruence.
        assert (tiktokAccount' = tiktokAccount) as -> by congruence.
        split; [apply list_elem_of_here|]. intros analyticsData' ? metrics' Hanswer Hentry'.
        assert (analyticsData' = analyticsData) as -> by congruence.
        assert (metrics' = metrics) as -> by congruence.
        apply list_elem_of_further, list_elem_of_here.
    + (* no entry: nothing is sent to the repository *)
      eexists [_], e. split; [|split].
      * erewrite run_try_inr;
          [reflexivity|erewrite run_bind_inr; [|by apply run_await_getVideoAnalytics];
                       by rewrite Hentry].
      * intros data Hin. apply elem_of_cons in Hin as [Hin|Hin]; [done|].
        by apply elem_of_nil in Hin.
      * intros videoId' tiktokAccount' Hid' _ Haccount'.
        assert (videoId' = videoId) as -> by congruence.
        assert (tiktokAccount' = tiktokAccount) as -> by congruence.
        split; [apply list_elem_of_here|]. intros analyticsData' ? metrics' Hanswer Hentry'.
        assert (analyticsData' = analyticsData) as -> by congruence.
        congruence.
Qed.

Lemma sync_loop_run (postedPosts : list Post) (w : World) :
  ∃ evs e,
    for_of postedPosts (sync_post Api) w = (inr (), mkWorld (w_db w) e (w_trace w ++ evs)) ∧
    (∀ data, EvUpsertPostAnalytics data ∈ evs →
       ∃ post, post ∈ postedPosts ∧ ia_postId data = post_id post ∧
               fetch_may_succeed Api (w_db w) post) ∧
    (∀ post videoId tiktokAccount,
       post ∈ postedPosts →
       post_tiktokPostId post = Some videoId → videoId ≠ "" →
       lookup_account (w_db w) (post_tiktokAccountId post) = Some tiktokAccount →
       EvGetVideoAnalytics (acct_accessToken tiktokAccount) [videoId] ∈ evs ∧
       ∃ e0, ∀ analyticsData e' metrics,
         getVideoAnalytics (Api (acct_accessToken tiktokAccount)) e0 [videoId]
           = (inr analyticsData, e') →
         analyticsData !! videoId = Some metrics →
         EvUpsertPostAnalytics (metrics_row post metrics) ∈ evs).
Proof.
  revert w. induction postedPosts as [|post postedPosts IH]; intros w.
  - exists [], (w_env w). split; [apply skip_run|].
    split; [by intros ? ?%elem_of_nil|by intros ? ? ? ?%elem_of_nil].
  - destruct (sync_post_run post w) as (evs1 & e1 & Hrun1 & Hevs1 & Hsent1).
    destruct (IH (mkWorld (w_db w) e1 (w_trace w ++ evs1)))
      as (evs2 & e2 & Hrun2 & Hevs2 & Hsent2).
    exists (evs1 ++ evs2), e2. split; [|split].
    + cbn [for_of]. erewrite run_bind_inr; [|exact Hrun1].
      rewrite Hrun2. cbn [w_db w_trace]. by rewrite app_assoc.
    + intros data Hin. apply elem_of_app in Hin as [Hin|Hin].
      * destruct (Hevs1 data Hin) as [? ?]. exists post. by repeat split; [left|..].
      * destruct (Hevs2 data Hin) as (q & ? & ? & ?). exists q. by repeat split; [right|..].
    + intros q videoId tiktokAccount Hq Hid Hne Haccount.
      apply elem_of_cons in Hq as [->|Hq].
      * destruct (Hsent1 videoId tiktokAccount Hid Hne Haccount) as [Hget Hupsert].
        split; [apply elem_of_app; by left|]. exists (w_env w).
        intros analyticsData e' metrics Hanswer Hentry.
        apply elem_of_app. left. by eapply Hupsert.
      * destruct (Hsent2 q videoId tiktokAccount Hq Hid Hne Haccount)
          as [Hget (e0 & Hupsert)].
        split; [apply elem_of_app; by right|]. exists e0.
        intros analyticsData e' metrics Hanswer Hentry.
        apply elem_of_app. right. by eapply Hupsert.
Qed.

(** The sweep always answers its success message; it leaves the database
    as it found it. *)
Lemma sync_analytics_route_run (w : World) :
  ∃ evs e,
    sync_analytics_route Api w =
      (mkResponse 200 (JsonMessage "Analytics synced successfully"),
       mkWorld (w_db w) e (w_trace w ++ evs)) ∧
    (∀ data, EvUpsertPostAnalytics data ∈ evs →
       ∃ post, post ∈ db_posts (w_db w) ∧ is_posted post ∧
               ia_postId data = post_id post ∧ fetch_may_succeed Api (w_db w) post) ∧
    (∀ post videoId tiktokAccount,
       post ∈ db_posts (w_db w) → post_userId post = mockUserId →
       post_status post = Some Posted →
       post_tiktokPostId post = Some videoId → videoId ≠ "" →
       lookup_account (w_db w) (post_tiktokAccountId post) = Some tiktokAccount →
       EvGetVideoAnalytics (acct_accessToken tiktokAccount) [videoId] ∈ evs ∧
       ∃ e0, ∀ analyticsData e' metrics,
         getVideoAnalytics (Api (acct_accessToken tiktokAccount)) e0 [videoId]
           = (inr analyticsData, e') →
         analyticsData !! videoId = Some metrics →
         EvUpsertPostAnalytics (metrics_row post metrics) ∈ evs).
Proof.
  unfold sync_analytics_route, syncAnalytics, getPosts.
  erewrite run_bind_inr; [|reflexivity].
  set (postedPosts := filter _ _).
  destruct (sync_loop_run postedPosts w) as (evs & e & Hrun & Hevs & Hsent).
  exists evs, e. split; [|split].
  - erewrite run_bind_inr; [|exact Hrun]. reflexivity.
  - intros data Hin. destruct (Hevs data Hin) as (q & Hq & ? & ?).
    exists q. subst postedPosts.
    apply list_elem_of_filter in Hq as [Hposted Hq].
    rewrite merge_sort_Permutation in Hq.
    apply list_elem_of_filter in Hq as [_ Hq]. done.
  - intros q videoId tiktokAccount Hq Huser Hstatus Hid Hne Haccount.
    apply (Hsent q videoId tiktokAccount); [|done..].
    subst postedPosts. apply list_elem_of_filter. split.
    + unfold is_posted, truthy. rewrite Hid, Hstatus.
      rewrite !bool_decide_eq_true_2 by done. exact I.
    + rewrite merge_sort_Permutation. by apply list_elem_of_filter.
Qed.

End reconciler.

Lemma primary_key_inj (rows : list Post) (p q : Post) :
  NoDup (post_id <$> rows) → p ∈ rows → q ∈ rows → post_id p = post_id q → p = q.
Proof.
  induction rows as [|r rows IH]; [by intros _ ?%elem_of_nil|].
  rewrite fmap_cons, NoDup_cons. intros [Hfresh Hrows] Hp Hq Heq.
  apply elem_of_cons in Hp as [->|Hp]; apply elem_of_cons in Hq as [->|Hq]; [done|..].
  - destruct Hfresh. rewrite Heq. by apply list_elem_of_fmap_2.
  - destruct Hfresh. rewrite <- Heq. by apply list_elem_of_fmap_2.
  - by apply IH.
Qed.

(** C8.  For a posted post whose remote id the platform does not
    recognise (its answer has no entry for the id), the sweep sends no
    upsert for that post, and the analytics rows of the post are what they
    were. *)
Theorem sync_skips_unrecognised Api w post videoId tiktokAccount :
  posts_primary_key (w_db w) →
  post ∈ db_posts (w_db w) →
  post_status post = Some Posted →
  post_tiktokPostId post = Some videoId →
  lookup_account (w_db w) (post_tiktokAccountId post) = Some tiktokAccount →
  unrecognised (Api (acct_accessToken tiktokAccount)) videoId →
  ∃ evs w',
    sync_analytics_route Api w =
      (mkResponse 200 (JsonMessage "Analytics synced successfully"), w') ∧
    w_trace w' = w_trace w ++ evs ∧
    (∀ data, EvUpsertPostAnalytics data ∈ evs → ia_postId data ≠ post_id post) ∧
    rows_of_analytics (w_db w') (post_id post) = rows_of_analytics (w_db w) (post_id post).
Proof.
  intros Hkey Hpost _ Hid Haccount Hunknown.
  destruct (sync_analytics_route_run Api w) as (evs & e & Hrun & Hevs & _).
  exists evs, (mkWorld (w_db w) e (w_trace w ++ evs)).
  split; [exact Hrun|]. split; [done|]. split; [|done].
  intros data Hin Hsame.
  destruct (Hevs data Hin) as (q & Hq & _ & Hqid & Hfetch).
  assert (q = post) as -> by (apply (primary_key_inj _ _ _ Hkey Hq Hpost); congruence).
  destruct Hfetch as (videoId' & tiktokAccount' & e1 & analyticsData & e2
                      & Hid' & Haccount' & Hfetch & Hentry).
  assert (videoId' = videoId) as -> by congruence.
  assert (tiktokAccount' = tiktokAccount) as -> by congruence.
  rewrite (Hunknown _ _ _ Hfetch) in Hentry. by destruct Hentry.
Qed.

(** C4.  Three posted posts.  With the mock, which answers metrics for
    every id, the sweep sends the upsert for each post and answers its
    success message, but each upsert is rejected by the database, the
    rejection is logged by the per-post [catch], and no analytics row is
    stored.  With a platform that is down for the second post, the sweep
    goes on after that failure and sends the upsert for the first and the
    third post; their rows are not stored either. *)
Theorem sync_three_posts_one_failure :
  let mock := sync_analytics_route MockTikTokApiService w_three in
  let down := sync_analytics_route (Catalog metrics_13 ["video-2"]) w_three in
  let sevens := λ postId, mkInsertPostAnalytics postId
        (Some (Some 7)) (Some (Some 7)) (Some (Some 7)) (Some (Some 7)) None
        (Some (Some 7)) (Some (Some 7)) in
  (fst mock = mkResponse 200 (JsonMessage "Analytics synced successfully") ∧
   w_trace (snd mock) =
     [ EvGetVideoAnalytics "token-1" ["video-3"];
       EvUpsertPostAnalytics (sevens 3);
       EvConsoleError "Error syncing analytics for post 3:" no_arbiter_index;
       EvGetVideoAnalytics "token-1" ["video-2"];
       EvUpsertPostAnalytics (sevens 2);
       EvConsoleError "Error syncing analytics for post 2:" no_arbiter_index;
       EvGetVideoAnalytics "token-1" ["video-1"];
       EvUpsertPostAnalytics (sevens 1);
       EvConsoleError "Error syncing analytics for post 1:" no_arbiter_index ] ∧
   db_postAnalytics (w_db (snd mock)) = []) ∧
  (fst down = mkResponse 200 (JsonMessage "Analytics synced successfully") ∧
   w_trace (snd down) =
     [ EvGetVideoAnalytics "token-1" ["video-3"];
       EvUpsertPostAnalytics (mkInsertPostAnalytics 3
         (Some (Some 300)) (Some (Some 30)) (Some (Some 6)) (Some (Some 3)) None
         (Some (Some 12000)) (Some (Some 15)));
       EvConsoleError "Error syncing analytics for post 3:" no_arbiter_index;
       EvGetVideoAnalytics "token-1" ["video-2"];
       EvConsoleError "Error syncing analytics for post 2:"
         "Failed to get analytics: Service Unavailable";
       EvGetVideoAnalytics "token-1" ["video-1"];
       EvUpsertPostAnalytics (mkInsertPostAnalytics 1
         (Some (Some 100)) (Some (Some 10)) (Some (Some 2)) (Some (Some 1)) None
         (Some (Some 9000)) (Some (Some 5)));
       EvConsoleError "Error syncing analytics for post 1:" no_arbiter_index ] ∧
   db_postAnalytics (w_db (snd down)) = []).
Proof.
  cbv zeta. repeat split; vm_compute; reflexivity.
Qed.


(** ** The round-trip property *)

Lemma round_trip_insert id postData t :
  round_trip (insert_post_row id postData t) ↔ round_trip (insert_post_row 0 postData 0).
Proof. reflexivity. Qed.

Lemma round_trip_set u t p : round_trip (set_post u t p) ↔ round_trip (set_post u 0 p).
Proof. reflexivity. Qed.

Lemma round_trip_posted tiktokPostId postedAt t1 t2 p :
  round_trip (set_post (status_posted tiktokPostId postedAt) t2 (set_post status_posting t1 p)).
Proof. unfold round_trip. cbn. split; eauto. Qed.

Lemma round_trip_failed message t1 t2 p :
  round_trip p → post_status p ≠ Some Posted →
  round_trip (set_post (status_failed message) t2 (set_post status_posting t1 p)).
Proof.
  unfold round_trip. cbn. intros Hp Hstatus. split; [done|].
  intros Hset. by apply Hp in Hset.
Qed.

(** C1, amended.  No operation checks the round-trip property.  From
    posts that satisfy it, the property survives the sweep, every
    [publish] except one whose remote call fails for a post that is
    already [posted] (a successful publish, also of a posted post, leaves
    the post [posted] with both fields set, and a 404 writes nothing), and
    a [createPost] or [updatePost] whose [status], [tiktokPostId] and
    [postedAt], as given or defaulted, agree. *)
Theorem round_trip_preserved (op : Operation) (w : World) :
  round_trip_db (w_db w) →
  keeps_round_trip op w →
  round_trip_db (w_db (run op w)).
Proof.
  intros Hinv Hkeep p'. destruct op as [postData|id updates|Api req postId|Api]; cbn [run].
  - (* createPost appends the new row *)
    cbn. intros Hin. apply elem_of_app in Hin as [Hin|Hin]; [by apply Hinv|].
    apply list_elem_of_singleton in Hin as ->. exact Hkeep.
  - (* updatePost rewrites the rows of the key *)
    cbn. intros Hin. apply elem_of_update_posts in Hin as (p & Hp & ->).
    destruct (decide (post_id p = id)) as [Hid|Hid]; [|by apply Hinv].
    exact (Hkeep p Hp Hid).
  - cbn in Hkeep.
    destruct (lookup_post (w_db w) postId) as [post|] eqn:Hpost;
      [|unfold publish_route; rewrite (publish_post_missing _ _ _ _ Hpost); apply Hinv].
    destruct (lookup_account (w_db w) (post_tiktokAccountId post))
      as [tiktokAccount|] eqn:Haccount;
      [|unfold publish_route; rewrite (publish_account_missing _ _ _ _ _ Hpost Haccount);
        apply Hinv].
    destruct (publish_call Api req w post tiktokAccount) as [[message|result] e] eqn:Hcall.
    + rewrite (publish_route_rejects _ _ _ _ _ _ Hpost Haccount _ _ Hcall).
      cbn. intros Hin. apply elem_of_update_twice in Hin as (p & Hp & ->).
      destruct (decide (post_id p = postId)) as [Hid|Hid]; [|by apply Hinv].
      apply round_trip_failed; [by apply Hinv|].
      exact (Hkeep post tiktokAccount message e eq_refl Haccount Hcall p Hp Hid).
    + rewrite (publish_route_resolves _ _ _ _ _ _ Hpost Haccount _ _ Hcall).
      cbn. intros Hin. apply elem_of_update_twice in Hin as (p & Hp & ->).
      destruct (decide (post_id p = postId)) as [Hid|Hid]; [|by apply Hinv].
      apply round_trip_posted.
  - destruct (sync_analytics_route_run Api w) as (evs & e & -> & _). apply Hinv.
Qed.

(** The exception is needed: when the remote call fails for a post that
    is [posted], publish leaves it [failed] with its remote id and its
    [postedAt], and the property is lost. *)
Lemma failed_republish_breaks_round_trip Api req postId w post tiktokAccount message e :
  round_trip_db (w_db w) →
  lookup_post (w_db w) postId = Some post →
  post_status post = Some Posted →
  lookup_account (w_db w) (post_tiktokAccountId post) = Some tiktokAccount →
  publish_call Api req w post tiktokAccount = (inl message, e) →
  ¬ round_trip_db (w_db (run (OpPublish Api req postId) w)).
Proof.
  intros Hinv Hpost Hstatus Haccount Hcall Hafter.
  assert (post ∈ db_posts (w_db w)) as Hin.
  { apply head_Some_elem_of in Hpost. by apply list_elem_of_filter in Hpost as [_ ?]. }
  destruct (Hinv post Hin) as [Hset _]. specialize (Hset Hstatus).
  cbn [run] in Hafter.
  rewrite (publish_route_rejects _ _ _ _ _ _ Hpost Haccount _ _ Hcall) in Hafter.
  cbn [snd w_db] in Hafter.
  set (post' := set_post (status_failed message) (now e)
                  (set_post status_posting (now (w_env w)) post)).
  assert (lookup_post (db_update_post (db_while_posting w postId) postId
                         (status_failed message) (now e)) postId = Some post') as Hlookup.
  { by rewrite lookup_post_update, (posting_is_committed _ _ _ Hpost). }
  apply head_Some_elem_of, list_elem_of_filter in Hlookup as [_ Hin'].
  destruct (Hafter post' Hin') as [_ Hback].
  discriminate Hback. exact Hset.
Qed.

(** ** Where the program departs from the specification *)

(** C1, as stated, fails: a post created with [status = posted] and no
    remote id is reachable; and a failed publish of a posted post leaves
    it [failed] with its remote id and its [postedAt]. *)
Lemma round_trip_is_not_invariant :
  (reachable (run (OpCreatePost insert_posted) w_start) ∧
   ¬ round_trip_db (w_db (run (OpCreatePost insert_posted) w_start))) ∧
  (round_trip_db (w_db w_sample) ∧
   ¬ round_trip_db
       (w_db (run (OpPublish (Unavailable "Service Unavailable") req0 3) w_sample))).
Proof.
  split; split.
  - apply reachable_run, reachable_start.
  - intros Hinv.
    assert (round_trip (insert_post_row 1 insert_posted 1000)) as [Hset _].
    { apply Hinv. vm_compute. apply list_elem_of_singleton. reflexivity. }
    destruct (Hset eq_refl) as [[? Hid] _]. discriminate Hid.
  - intros p Hin. unfold round_trip.
    repeat (apply elem_of_cons in Hin as [->|Hin]); [..|by apply elem_of_nil in Hin];
      cbn; (split; [try done|intros [[? ?] [? ?]]; try done]); eauto.
  - intros Hinv.
    assert (round_trip (set_post (status_failed "Service Unavailable") 1001
                          (set_post status_posting 1000 posted_post))) as [_ Hset].
    { apply Hinv. vm_compute. do 2 apply list_elem_of_further. apply list_elem_of_here. }
    discriminate Hset. split; eexists; reflexivity.
Qed.

(** C2, as stated, fails: a posted post whose publish fails keeps its
    remote id. *)
Lemma failed_publish_keeps_remote_id :
  ¬ failed_publish_leaves_id_null (Unavailable "Service Unavailable") req0 3 w_sample.
Proof.
  intros Hclaim.
  destruct (Hclaim posted_post (account 1 (Some true)) "Service Unavailable" (tick env0)
              eq_refl eq_refl eq_refl)
    as (w' & post' & Hrun & _ & Hlookup & _ & _ & Hnull).
  rewrite (publish_rejects (Unavailable "Service Unavailable") req0 3 w_sample
             posted_post (account 1 (Some true)) eq_refl eq_refl
             "Service Unavailable" (tick env0) eq_refl) in Hrun.
  injection Hrun as <-. vm_compute in Hlookup. injection Hlookup as <-.
  discriminate Hnull.
Qed.

(** C3, as stated, fails: a failed post that is published again with
    success is [posted] and still carries its old [errorMessage]. *)
Lemma successful_publish_keeps_old_error :
  ¬ successful_publish_clears_error MockTikTokApiService req0 2 w_sample.
Proof.
  intros Hclaim.
  assert (publish_call MockTikTokApiService req0 w_sample failed_post (account 1 (Some true))
          = (inr (mkTikTokPostResponse "mock_post_1001"), tick (tick env0))) as Hcall
    by (vm_compute; reflexivity).
  destruct (Hclaim failed_post (account 1 (Some true)) _ _ eq_refl (or_intror eq_refl)
              eq_refl Hcall)
    as (w' & post' & Hrun & Hlookup & _ & _ & _ & Hcleared).
  rewrite (publish_resolves MockTikTokApiService req0 2 w_sample
             failed_post (account 1 (Some true)) eq_refl eq_refl _ _ Hcall) in Hrun.
  injection Hrun as _ <-. vm_compute in Hlookup. injection Hlookup as <-.
  discriminate Hcleared.
Qed.

(** C6, as stated, fails: with the account deactivated, publish goes
    through and answers 200. *)
Lemma inactive_account_still_publishes :
  ¬ inactive_account_is_not_found MockTikTokApiService req0 1 w_inactive.
Proof.
  intros Hclaim. destruct Hclaim as [Hstatus _].
  - right. exists draft_post. split; [reflexivity|].
    right. exists (account 1 (Some false)). split; reflexivity.
  - vm_compute in Hstatus. discriminate Hstatus.
Qed.

(** ** The theorems at sample inputs *)

Lemma w_sample_round_trip : round_trip_db (w_db w_sample).
Proof.
  intros p Hin. unfold round_trip.
  repeat (apply elem_of_cons in Hin as [->|Hin]); [..|by apply elem_of_nil in Hin];
    cbn; (split; [try done|intros [[? ?] [? ?]]; try done]); eauto.
Defined.

(** Publishing the posted post of the sample world again through the
    mock, whose call succeeds. *)
Lemma round_trip_preserved_witness :
  round_trip_db (w_db (run (OpPublish MockTikTokApiService req0 3) w_sample)).
Proof.
  apply round_trip_preserved.
  - exact w_sample_round_trip.
  - intros post tiktokAccount message e _ _ Hcall. discriminate Hcall.
Defined.

(** The platform is down while the posted post of the sample world is
    published again. *)
Lemma failed_publish_witness :
  ∃ w' post',
    publish (Unavailable "Service Unavailable") req0 3 w_sample
      = (inl "Service Unavailable", w') ∧
    fst (publish_route (Unavailable "Service Unavailable") req0 3 w_sample)
      = mkResponse 500 (JsonMessage "Service Unavailable") ∧
    lookup_post (w_db w') 3 = Some post' ∧
    post_status post' = Some Failed ∧
    post_errorMessage post' = Some "Service Unavailable" ∧
    post_tiktokPostId post' = post_tiktokPostId posted_post.
Proof.
  apply (failed_publish_persists_and_raises (Unavailable "Service Unavailable") req0 3
           w_sample posted_post (account 1 (Some true)) "Service Unavailable" (tick env0));
    reflexivity.
Defined.

Lemma mock_call_for_failed_post :
  publish_call MockTikTokApiService req0 w_sample failed_post (account 1 (Some true))
    = (inr (mkTikTokPostResponse "mock_post_1001"), tick (tick env0)).
Proof. vm_compute. reflexivity. Defined.

(** The failed post of the sample world is published again through the
    mock. *)
Lemma successful_publish_witness :
  ∃ w' post',
    publish MockTikTokApiService req0 2 w_sample
      = (inr (mkResponse 200 (JsonPost (Some post'))), w') ∧
    lookup_post (w_db w') 2 = Some post' ∧
    post_status post' = Some Posted ∧
    post_tiktokPostId post' = Some "mock_post_1001" ∧
    post_postedAt post' = Some 1002 ∧
    post_errorMessage post' = Some "Request timed out".
Proof.
  apply (successful_publish_keeps_error MockTikTokApiService req0 2 w_sample failed_post
           (account 1 (Some true)) (mkTikTokPostResponse "mock_post_1001")
           (tick (tick env0))).
  - reflexivity.
  - right. reflexivity.
  - reflexivity.
  - exact mock_call_for_failed_post.
Defined.

Lemma mock_call_for_draft_post :
  publish_call MockTikTokApiService req0 w_sample draft_post (account 1 (Some true))
    = (inr (mkTikTokPostResponse "mock_post_1001"), tick (tick env0)).
Proof. vm_compute. reflexivity. Defined.

(** The trace of publishing the draft of the sample world. *)
Lemma publish_writes_are_ordered_witness :
  post_status <$> lookup_post (db_while_posting w_sample 1) 1 = Some (Some Posting) ∧
  w_trace (snd (publish_route MockTikTokApiService req0 1 w_sample)) =
    [EvUpdatePost 1 status_posting;
     publish_call_event req0 draft_post (account 1 (Some true)) (db_while_posting w_sample 1);
     EvUpdatePost 1 (status_posted "mock_post_1001" 1002)] ∧
  post_status <$> lookup_post (w_db (snd (publish_route MockTikTokApiService req0 1 w_sample))) 1
    = Some (Some Posted).
Proof.
  pose proof (publish_writes_are_ordered MockTikTokApiService req0 1 w_sample draft_post
                (account 1 (Some true)) eq_refl eq_refl) as Hordered.
  cbv zeta in Hordered. rewrite mock_call_for_draft_post in Hordered.
  exact Hordered.
Defined.

Lemma mock_call_for_posted_post :
  publish_call MockTikTokApiService req0 w_sample posted_post (account 1 (Some true))
    = (inr (mkTikTokPostResponse "mock_post_1001"), tick (tick env0)).
Proof. vm_compute. reflexivity. Defined.

(** The posted post of the sample world is published a second time: its
    remote id and its [postedAt] are overwritten. *)
Lemma publish_has_no_status_precondition_witness :
  post_tiktokPostId posted_post = Some "video-3" ∧
  post_postedAt posted_post = Some 500 ∧
  fst (publish_route MockTikTokApiService req0 3 w_sample)
    = mkResponse 200
        (JsonPost (lookup_post (w_db (snd (publish_route MockTikTokApiService req0 3 w_sample))) 3)) ∧
  ∃ post',
    lookup_post (w_db (snd (publish_route MockTikTokApiService req0 3 w_sample))) 3
      = Some post' ∧
    post_status post' = Some Posted ∧
    post_tiktokPostId post' = Some "mock_post_1001" ∧
    post_postedAt post' = Some 1002.
Proof.
  pose proof (publish_has_no_status_precondition MockTikTokApiService req0 3 w_sample
                posted_post (account 1 (Some true)) (Some Posted) eq_refl eq_refl eq_refl)
    as (_ & _ & Hrun).
  rewrite mock_call_for_posted_post in Hrun.
  split; [reflexivity|]. split; [reflexivity|]. exact Hrun.
Defined.

Lemma catalog_does_not_know_video_2 :
  unrecognised (Catalog metrics_13 [] "token-1") "video-2".
Proof.
  intros e analyticsData e' Hanswer.
  unfold Catalog in Hanswer. cbn [getVideoAnalytics] in Hanswer.
  destruct (decide (Exists (λ id : string, id ∈ []) ["video-2"])) as [Hdown|_].
  - clear Hanswer. apply Exists_exists in Hdown as (id & _ & Hdown).
    apply elem_of_nil in Hdown. destruct Hdown.
  - remember (filter _ metrics_13) as known eqn:Hknown.
    injection Hanswer as <- _. rewrite Hknown.
    vm_compute. reflexivity.
Defined.

(** The second post of [w_three] is posted under an id the catalog does not
    hold. *)
Lemma sync_skips_unrecognised_witness :
  ∃ evs w',
    sync_analytics_route (Catalog metrics_13 []) w_three =
      (mkResponse 200 (JsonMessage "Analytics synced successfully"), w') ∧
    w_trace w' = w_trace w_three ++ evs ∧
    (∀ data, EvUpsertPostAnalytics data ∈ evs → ia_postId data ≠ 2) ∧
    rows_of_analytics (w_db w') 2 = rows_of_analytics (w_db w_three) 2.
Proof.
  apply (sync_skips_unrecognised (Catalog metrics_13 []) w_three
           (sample_post 2 Posted (Some 501) (Some "video-2") None) "video-2"
           (account 1 (Some true))).
  - apply (bool_decide_unpack _). vm_compute. exact I.
  - apply list_elem_of_further, list_elem_of_here.
  - reflexivity.
  - reflexivity.
  - reflexivity.
  - exact catalog_does_not_know_video_2.
Defined.

Lemma publish_through_mock_witness :
  ∃ post',
    fst (publish_route MockTikTokApiService req0 1 w_sample)
      = mkResponse 200 (JsonPost (Some post')) ∧
    lookup_post (w_db (snd (publish_route MockTikTokApiService req0 1 w_sample))) 1
      = Some post' ∧
    post_status post' = Some Posted ∧
    post_tiktokPostId post' = Some ("mock_post_" +:+ pretty (now (tick (w_env w_sample)))).
Proof.
  apply (publish_through_mock req0 1 w_sample draft_post (account 1 (Some true)));
    reflexivity.
Defined.

(** ** The ids of the posts *)

Lemma update_posts_ids id u t (rows : list Post) :
  post_id <$> update_posts_where_id id u t rows = post_id <$> rows.
Proof.
  unfold update_posts_where_id. rewrite <- list_fmap_compose.
  apply list_fmap_ext. intros i p _. cbn. by destruct (decide (post_id p = id)).
Qed.

Lemma posts_wf_same_ids (d d' : Db) :
  post_id <$> db_posts d' = post_id <$> db_posts d →
  db_posts_id_seq d' = db_posts_id_seq d →
  posts_wf d → posts_wf d'.
Proof.
  unfold posts_wf, posts_primary_key. intros Hids Hseq [Hkey Hbelow].
  rewrite Hids, Hseq. split; [done|].
  intros p' Hp'. apply (list_elem_of_fmap_2 post_id) in Hp'. rewrite Hids in Hp'.
  apply list_elem_of_fmap in Hp' as (p & -> & Hp). by apply Hbelow.
Qed.

Lemma publish_route_ids Api req postId w :
  post_id <$> db_posts (w_db (snd (publish_route Api req postId w)))
    = post_id <$> db_posts (w_db w) ∧
  db_posts_id_seq (w_db (snd (publish_route Api req postId w))) = db_posts_id_seq (w_db w).
Proof.
  destruct (lookup_post (w_db w) postId) as [post|] eqn:Hpost;
    [|unfold publish_route; by rewrite (publish_post_missing _ _ _ _ Hpost)].
  destruct (lookup_account (w_db w) (post_tiktokAccountId post))
    as [tiktokAccount|] eqn:Haccount;
    [|unfold publish_route; by rewrite (publish_account_missing _ _ _ _ _ Hpost Haccount)].
  destruct (publish_call Api req w post tiktokAccount) as [[message|result] e] eqn:Hcall.
  - rewrite (publish_route_rejects _ _ _ _ _ _ Hpost Haccount _ _ Hcall).
    unfold db_while_posting, db_update_post. cbn [snd w_db db_posts db_posts_id_seq].
    by rewrite !update_posts_ids.
  - rewrite (publish_route_resolves _ _ _ _ _ _ Hpost Haccount _ _ Hcall).
    unfold db_while_posting, db_update_post. cbn [snd w_db db_posts db_posts_id_seq].
    by rewrite !update_posts_ids.
Qed.

Lemma run_createPost postData w :
  createPost postData w =
    (inr (insert_post_row (db_posts_id_seq (w_db w)) postData (now (w_env w))),
     mkWorld (mkDb (db_posts (w_db w)
                      ++ [insert_post_row (db_posts_id_seq (w_db w)) postData (now (w_env w))])
                   (db_tiktokAccounts (w_db w)) (db_postAnalytics (w_db w))
                   (db_posts_id_seq (w_db w) + 1) (db_postAnalytics_id_seq (w_db w)))
             (tick (w_env w)) (w_trace w ++ [EvCreatePost postData])).
Proof. reflexivity. Qed.

Lemma createPost_wf postData w : posts_wf (w_db w) → posts_wf (w_db (snd (createPost postData w))).
Proof.
  unfold posts_wf, posts_primary_key. intros [Hkey Hbelow].
  rewrite run_createPost. cbn [snd w_db db_posts db_posts_id_seq]. split.
  - rewrite fmap_app. apply NoDup_app. split; [done|]. split; [|apply NoDup_singleton].
    intros id Hid Hnew. cbn in Hnew. apply list_elem_of_singleton in Hnew as ->.
    apply list_elem_of_fmap in Hid as (p & Hp & Hin). apply Hbelow in Hin. lia.
  - intros p Hp. apply elem_of_app in Hp as [Hp|Hp].
    + apply Hbelow in Hp. lia.
    + apply list_elem_of_singleton in Hp as ->. cbn. lia.
Qed.

(** ** Create, read, update, delete *)

Lemma filter_none {A} (P : A → Prop) `{!∀ x, Decision (P x)} (l : list A) :
  (∀ x, x ∈ l → ¬ P x) → filter P l = [].
Proof.
  induction l as [|x l IH]; [done|]. intros Hnone. rewrite filter_cons.
  rewrite decide_False by (apply Hnone, list_elem_of_here).
  apply IH. intros y Hy. apply Hnone. by apply list_elem_of_further.
Qed.

(** On a well-formed table, an insert whose references exist is accepted:
    the created post takes the next id, is what [getPost] returns for that
    id, and displaces no other post; keys the caller omits take the
    defaults of the schema. *)
Theorem createPost_then_getPost (postData : InsertPost) (w : World) :
  posts_wf (w_db w) →
  references_exist (w_db w) postData →
  ∃ post w',
    createPost postData w = (inr post, w') ∧
    post_id post = db_posts_id_seq (w_db w) ∧
    getPost (post_id post) w' = (inr (Some post), w') ∧
    (∀ id, id ≠ post_id post → lookup_post (w_db w') id = lookup_post (w_db w) id) ∧
    (ins_status postData = None → post_status post = Some Draft) ∧
    (ins_privacyLevel postData = None → post_privacyLevel post = Some Public) ∧
    (ins_tiktokPostId postData = None → post_tiktokPostId post = None) ∧
    (ins_allowComments postData = None → post_allowComments post = Some true) ∧
    posts_wf (w_db w').
Proof.
  intros Hwf _. pose proof (createPost_wf postData w Hwf) as Hwf'.
  destruct Hwf as [_ Hbelow].
  assert (filter (λ p, post_id p = db_posts_id_seq (w_db w)) (db_posts (w_db w)) = [])
    as Hfresh.
  { apply filter_none. intros p Hp Hid. apply Hbelow in Hp. lia. }
  rewrite run_createPost in Hwf'. rewrite run_createPost.
  eexists _, _. split; [reflexivity|]. split; [reflexivity|]. cbn [post_id insert_post_row].
  split; [|split; [|split; [|split; [|split; [|split; [|exact Hwf']]]]]].
  - rewrite run_getPost. unfold lookup_post, rows_of_post. cbn [w_db db_posts].
    rewrite filter_app, Hfresh, filter_cons. cbn [post_id insert_post_row app].
    by rewrite decide_True.
  - intros id Hid. unfold lookup_post, rows_of_post. cbn [w_db db_posts].
    rewrite filter_app, filter_cons. cbn [post_id insert_post_row].
    rewrite decide_False by congruence.
    by rewrite filter_nil, app_nil_r.
  - cbn. by intros ->.
  - cbn. by intros ->.
  - cbn. by intros ->.
  - cbn. by intros ->.
Qed.

Lemma update_posts_missing id u t (rows : list Post) :
  filter (λ p, post_id p = id) rows = [] → update_posts_where_id id u t rows = rows.
Proof.
  intros Hnone. unfold update_posts_where_id.
  rewrite <- (list_fmap_id rows) at 2. apply list_fmap_ext. intros i p Hp.
  destruct (decide (post_id p = id)) as [Hid|]; [|done].
  assert (p ∈ filter (λ p, post_id p = id) rows) as Hin
    by (apply list_elem_of_filter; split; [done|by eapply list_elem_of_lookup_2]).
  rewrite Hnone in Hin. by apply elem_of_nil in Hin.
Qed.

(** [updatePost] of an id that no post has returns [undefined] and leaves
    the database as it was. *)
Theorem updatePost_missing (id : Z) (updates : PostUpdates) (w : World) :
  lookup_post (w_db w) id = None →
  ∃ w', updatePost id updates w = (inr None, w') ∧ w_db w' = w_db w.
Proof.
  intros Hnone. apply head_None in Hnone. unfold rows_of_post in Hnone.
  rewrite run_updatePost. eexists. rewrite lookup_post_update.
  unfold lookup_post at 1, rows_of_post. rewrite Hnone. split; [reflexivity|].
  cbn. unfold db_update_post. rewrite update_posts_missing by done.
  by destruct (w_db w).
Qed.

(** [updatePost] of an existing post with updates that move it to no
    other user or account: the row it returns is the row now stored under
    the id, with [updatedAt] stamped and [status] as given, or as it was
    when the updates name none; the posts under other ids, the accounts
    and the analytics stay. *)
Theorem updatePost_frame (id : Z) (updates : PostUpdates) (w : World) (post : Post) :
  lookup_post (w_db w) id = Some post →
  set_userId updates = None →
  set_tiktokAccountId updates = None →
  ∃ post' w',
    updatePost id updates w = (inr (Some post'), w') ∧
    lookup_post (w_db w') id = Some post' ∧
    post_updatedAt post' = Some (now (w_env w)) ∧
    post_userId post' = post_userId post ∧
    post_tiktokAccountId post' = post_tiktokAccountId post ∧
    (∀ status, set_status updates = Some status → post_status post' = status) ∧
    (set_status updates = None → post_status post' = post_status post) ∧
    (∀ id', id ≠ id' → lookup_post (w_db w') id' = lookup_post (w_db w) id') ∧
    db_tiktokAccounts (w_db w') = db_tiktokAccounts (w_db w) ∧
    db_postAnalytics (w_db w') = db_postAnalytics (w_db w).
Proof.
  intros Hpost Huser Haccount. rewrite run_updatePost, lookup_post_update, Hpost.
  eexists _, _. split; [reflexivity|]. cbn [w_db].
  rewrite lookup_post_update, Hpost.
  split; [reflexivity|]. split; [reflexivity|].
  split; [cbn; by rewrite Huser|]. split; [cbn; by rewrite Haccount|].
  split; [intros status Hset; cbn; by rewrite Hset|].
  split; [intros Hset; cbn; by rewrite Hset|]. split; [|split; reflexivity].
  intros id' Hne. by apply lookup_post_update_ne.
Qed.

Lemma filter_other_key {A} (f : A → Z) (k k' : Z) (l : list A) :
  k' ≠ k → filter (λ x, f x = k') (filter (λ x, f x ≠ k) l) = filter (λ x, f x = k') l.
Proof.
  intros Hne. rewrite list_filter_filter. apply list_filter_iff.
  intros x. split; [by intros [? _]|]. intros Hx. split; [done|congruence].
Qed.

Lemma filter_same_key {A} (f : A → Z) (k : Z) (l : list A) :
  filter (λ x, f x = k) (filter (λ x, f x ≠ k) l) = [].
Proof.
  apply filter_none. intros x Hx. apply list_elem_of_filter in Hx as [Hx _]. done.
Qed.

(** [deletePost] removes the post and, when there was one, its analytics
    rows; posts and analytics under other ids and the accounts stay.  A
    publish of the deleted id is answered 404 and touches nothing. *)
Theorem deletePost_effect (id : Z) (w : World) :
  ∃ w',
    deletePost id w = (inr (), w') ∧
    lookup_post (w_db w') id = None ∧
    (is_Some (lookup_post (w_db w) id) → rows_of_analytics (w_db w') id = []) ∧
    (∀ id', id' ≠ id →
       lookup_post (w_db w') id' = lookup_post (w_db w) id' ∧
       rows_of_analytics (w_db w') id' = rows_of_analytics (w_db w) id') ∧
    db_tiktokAccounts (w_db w') = db_tiktokAccounts (w_db w) ∧
    (∀ Api req,
       publish_route Api req id w' = (mkResponse 404 (JsonMessage "Post not found"), w')).
Proof.
  unfold deletePost. erewrite run_bind_inr; [|reflexivity].
  destruct (decide (rows_of_post (w_db w) id = [])) as [Hnone|Hsome].
  - exists w. split; [reflexivity|].
    assert (lookup_post (w_db w) id = None) as Hlookup
      by (unfold lookup_post; by rewrite Hnone).
    split; [done|]. split; [rewrite Hlookup; by intros [? ?]|].
    split; [done|]. split; [done|].
    intros Api req. unfold publish_route. by rewrite (publish_post_missing _ _ _ _ Hlookup).
  - eexists. split; [reflexivity|].
    match goal with |- lookup_post (w_db ?W) _ = _ ∧ _ => set (w' := W) end.
    assert (lookup_post (w_db w') id = None) as Hgone.
    { unfold lookup_post, rows_of_post. cbn [w' w_db db_posts]. by rewrite filter_same_key. }
    split; [exact Hgone|]. split.
    { intros _. unfold rows_of_analytics. cbn [w' w_db db_postAnalytics].
      apply filter_same_key. }
    split; [|split; [reflexivity|]].
    + intros id' Hne. unfold lookup_post, rows_of_post, rows_of_analytics.
      cbn [w' w_db db_posts db_postAnalytics]. by rewrite !filter_other_key.
    + intros Api req. unfold publish_route.
      by rewrite (publish_post_missing Api req id w' Hgone).
Qed.

(** [deleteTikTokAccount] of an existing account removes it together with
    its posts and their analytics rows, and nothing else: the other
    accounts, the posts of other accounts and the analytics rows of those
    posts are as before.  The posts that remain still have their accounts,
    and a publish of a deleted post is answered 404. *)
Theorem deleteTikTokAccount_cascades (id : Z) (w : World) :
  posts_primary_key (w_db w) →
  is_Some (lookup_account (w_db w) id) →
  ∃ w',
    deleteTikTokAccount id w = (inr (), w') ∧
    lookup_account (w_db w') id = None ∧
    (∀ a, a ≠ id → lookup_account (w_db w') a = lookup_account (w_db w) a) ∧
    (∀ p, p ∈ db_posts (w_db w') ↔ p ∈ db_posts (w_db w) ∧ post_tiktokAccountId p ≠ id) ∧
    (∀ p, p ∈ db_posts (w_db w) → post_tiktokAccountId p = id →
       rows_of_analytics (w_db w') (post_id p) = [] ∧
       ∀ Api req,
         publish_route Api req (post_id p) w'
           = (mkResponse 404 (JsonMessage "Post not found"), w')) ∧
    (∀ p, p ∈ db_posts (w_db w) → post_tiktokAccountId p ≠ id →
       lookup_post (w_db w') (post_id p) = Some p ∧
       rows_of_analytics (w_db w') (post_id p) = rows_of_analytics (w_db w) (post_id p)) ∧
    (accounts_exist (w_db w) → accounts_exist (w_db w')).
Proof.
  intros Hkey [account Haccount].
  unfold deleteTikTokAccount. erewrite run_bind_inr; [|reflexivity].
  rewrite decide_False.
  2: { unfold lookup_account in Haccount. by destruct (rows_of_account (w_db w) id). }
  eexists. split; [reflexivity|]. cbn [w_db].
  set (d' := mkDb _ _ _ _ _).
  assert (∀ a, a ≠ id → lookup_account d' a = lookup_account (w_db w) a) as Hothers.
  { intros a Hne. unfold lookup_account, rows_of_account. cbn [d' db_tiktokAccounts].
    by rewrite filter_other_key. }
  split; [|split; [exact Hothers|split; [|split; [|split]]]].
  - unfold lookup_account, rows_of_account. cbn [d' db_tiktokAccounts].
    by rewrite filter_same_key.
  - intros p. cbn [d' db_posts]. rewrite list_elem_of_filter. tauto.
  - intros p Hp Hp_account. split.
    + unfold rows_of_analytics. cbn [d' db_postAnalytics].
      apply filter_none. intros r Hr Hsame.
      apply list_elem_of_filter in Hr as [Hr _]. apply Hr.
      rewrite Hsame. apply list_elem_of_fmap_2. by apply list_elem_of_filter.
    + intros Api req. unfold publish_route. rewrite publish_post_missing; [done|].
      unfold lookup_post, rows_of_post. cbn [d' db_posts].
      rewrite filter_none; [done|].
      intros q Hq Hsame. apply list_elem_of_filter in Hq as [Hq_account Hq].
      assert (q = p) as -> by by apply (primary_key_inj _ _ _ Hkey Hq Hp).
      done.
  - intros p Hp Hp_account. split.
    + assert (p ∈ rows_of_post d' (post_id p)) as Hrow.
      { unfold rows_of_post. cbn [d' db_posts]. by rewrite !list_elem_of_filter. }
      unfold lookup_post. destruct (rows_of_post d' (post_id p)) as [|q rows] eqn:Hrows;
        [by apply elem_of_nil in Hrow|].
      assert (q ∈ rows_of_post d' (post_id p)) as Hq by (rewrite Hrows; apply list_elem_of_here).
      unfold rows_of_post in Hq. cbn [d' db_posts] in Hq.
      apply list_elem_of_filter in Hq as [Hq_id Hq]. apply list_elem_of_filter in Hq as [_ Hq].
      cbn [head]. f_equal. by apply (primary_key_inj _ _ _ Hkey Hq Hp).
    + unfold rows_of_analytics. cbn [d' db_postAnalytics].
      rewrite list_filter_filter. apply list_filter_iff. intros r.
      split; [by intros [? _]|]. intros Hr. split; [done|].
      intros Hdeleted. apply list_elem_of_fmap in Hdeleted as (q & Hq_id & Hq).
      apply list_elem_of_filter in Hq as [Hq_account Hq].
      assert (q = p) as -> by (apply (primary_key_inj _ _ _ Hkey Hq Hp); congruence).
      done.
  - intros Hexist p Hp. cbn [d' db_posts] in Hp.
    apply list_elem_of_filter in Hp as [Hp_account Hp].
    rewrite Hothers by done. by apply Hexist.
Qed.

(** ** The tables stay well formed *)

Lemma posts_wf_filter (P : Post → Prop) `{!∀ p, Decision (P p)} (d d' : Db) :
  db_posts d' = filter P (db_posts d) →
  db_posts_id_seq d' = db_posts_id_seq d →
  posts_wf d → posts_wf d'.
Proof.
  unfold posts_wf, posts_primary_key. intros -> -> [Hkey Hbelow]. split.
  - eapply sublist_NoDup; [exact Hkey|]. apply fmap_sublist, sublist_filter.
  - intros p Hp. apply list_elem_of_filter in Hp as [_ Hp]. by apply Hbelow.
Qed.

Lemma lookup_account_same (d d' : Db) (id : Z) :
  db_tiktokAccounts d' = db_tiktokAccounts d → lookup_account d' id = lookup_account d id.
Proof. unfold lookup_account, rows_of_account. by intros ->. Qed.

Lemma publish_route_accounts Api req postId w :
  let w' := snd (publish_route Api req postId w) in
  db_tiktokAccounts (w_db w') = db_tiktokAccounts (w_db w) ∧
  ∀ p', p' ∈ db_posts (w_db w') →
    ∃ p, p ∈ db_posts (w_db w) ∧ post_tiktokAccountId p' = post_tiktokAccountId p.
Proof.
  cbv zeta.
  destruct (lookup_post (w_db w) postId) as [post|] eqn:Hpost;
    [|unfold publish_route; rewrite (publish_post_missing _ _ _ _ Hpost); by eauto].
  destruct (lookup_account (w_db w) (post_tiktokAccountId post))
    as [tiktokAccount|] eqn:Haccount;
    [|unfold publish_route; rewrite (publish_account_missing _ _ _ _ _ Hpost Haccount);
      by eauto].
  destruct (publish_call Api req w post tiktokAccount) as [[message|result] e] eqn:Hcall.
  - rewrite (publish_route_rejects _ _ _ _ _ _ Hpost Haccount _ _ Hcall).
    split; [reflexivity|]. cbn. intros p' Hin.
    apply elem_of_update_twice in Hin as (p & Hp & ->). exists p. split; [done|].
    by destruct (decide (post_id p = postId)).
  - rewrite (publish_route_resolves _ _ _ _ _ _ Hpost Haccount _ _ Hcall).
    split; [reflexivity|]. cbn. intros p' Hin.
    apply elem_of_update_twice in Hin as (p & Hp & ->). exists p. split; [done|].
    by destruct (decide (post_id p = postId)).
Qed.

(** Through create, publish, sweep and delete the tables stay well
    formed: the ids of the posts are distinct and below the next value of
    the sequence, and every post has its account. *)
Theorem lifecycle_keeps_tables_well_formed (w : World) :
  lifecycle w → posts_wf (w_db w) ∧ accounts_exist (w_db w).
Proof.
  induction 1 as [accounts e|postData w _ [IHwf IHacc] Hrefs|Api req postId w _ [IHwf IHacc]
                  |Api w _ IH|id w _ [IHwf IHacc]|id w _ [IHwf IHacc]].
  - split; [split; [apply NoDup_nil_2|by intros p ?%elem_of_nil]|by intros p ?%elem_of_nil].
  - split; [by apply createPost_wf|].
    rewrite run_createPost. cbn [snd w_db]. intros p Hp. cbn [db_posts] in Hp.
    rewrite (lookup_account_same (w_db w)) by reflexivity.
    apply elem_of_app in Hp as [Hp|Hp]; [by apply IHacc|].
    apply list_elem_of_singleton in Hp as ->. cbn [post_tiktokAccountId insert_post_row].
    unfold references_exist in Hrefs.
    by destruct (lookup_account (w_db w) (ins_tiktokAccountId postData)).
  - split; [by apply (posts_wf_same_ids (w_db w)); [apply publish_route_ids..|]|].
    destruct (publish_route_accounts Api req postId w) as [Haccounts Hposts].
    intros p' Hp'. destruct (Hposts p' Hp') as (p & Hp & ->).
    rewrite (lookup_account_same (w_db w)) by done. by apply IHacc.
  - by destruct (sync_analytics_route_run Api w) as (evs & e & -> & _).
  - unfold deletePost. erewrite run_bind_inr; [|reflexivity].
    destruct (decide (rows_of_post (w_db w) id = [])); [done|]. cbn [snd w_db]. split.
    + by eapply (posts_wf_filter _ (w_db w)).
    + intros p Hp. cbn [db_posts] in Hp. apply list_elem_of_filter in Hp as [_ Hp].
      rewrite (lookup_account_same (w_db w)) by reflexivity. by apply IHacc.
  - unfold deleteTikTokAccount. erewrite run_bind_inr; [|reflexivity].
    destruct (decide (rows_of_account (w_db w) id = [])); [done|].
    unfold put_db. cbn [snd w_db]. split.
    + by eapply (posts_wf_filter _ (w_db w)).
    + intros p Hp. cbn [db_posts] in Hp. apply list_elem_of_filter in Hp as [Hne Hp].
      unfold lookup_account, rows_of_account. cbn [db_tiktokAccounts].
      rewrite filter_other_key by done. by apply IHacc.
Qed.

(** ** What publish and the sweep leave alone *)

(** Publish changes only the post it is asked to publish, and of that
    post only [status], [tiktokPostId], [postedAt], [errorMessage] and
    [updatedAt]: the other posts, the accounts and the analytics are as
    before. *)
Theorem publish_frame Api req postId w :
  let w' := snd (publish_route Api req postId w) in
  (∀ id, id ≠ postId → lookup_post (w_db w') id = lookup_post (w_db w) id) ∧
  db_tiktokAccounts (w_db w') = db_tiktokAccounts (w_db w) ∧
  db_postAnalytics (w_db w') = db_postAnalytics (w_db w) ∧
  (∀ post', lookup_post (w_db w') postId = Some post' →
     ∃ post, lookup_post (w_db w) postId = Some post ∧
       mkPost (post_id post') (post_userId post') (post_tiktokAccountId post')
              (post_title post') (post_description post') (post_hashtags post')
              (post_videoUrl post') (post_thumbnailUrl post')
              (post_status post) (post_scheduledAt post') (post_postedAt post)
              (post_tiktokPostId post) (post_privacyLevel post')
              (post_allowComments post') (post_allowDuet post') (post_allowStitch post')
              (post_errorMessage post) (post_createdAt post') (post_updatedAt post)
       = post).
Proof.
  cbv zeta.
  destruct (lookup_post (w_db w) postId) as [post|] eqn:Hpost.
  2: { unfold publish_route. rewrite (publish_post_missing _ _ _ _ Hpost). cbn [snd].
       repeat split; try done. intros post'. by rewrite Hpost. }
  destruct (lookup_account (w_db w) (post_tiktokAccountId post))
    as [tiktokAccount|] eqn:Haccount.
  2: { unfold publish_route.
       rewrite (publish_account_missing _ _ _ _ _ Hpost Haccount). cbn [snd].
       repeat split; try done. intros post'. rewrite Hpost. intros [= <-].
       exists post. by destruct post. }
  destruct (publish_call Api req w post tiktokAccount) as [[message|result] e] eqn:Hcall.
  - rewrite (publish_route_rejects _ _ _ _ _ _ Hpost Haccount _ _ Hcall). cbn [snd w_db].
    split; [|split; [reflexivity|split; [reflexivity|]]].
    + intros id Hne. unfold db_while_posting. by rewrite !lookup_post_update_ne.
    + intros post'. rewrite lookup_post_update, (posting_is_committed _ _ _ Hpost).
      intros [= <-]. exists post. by destruct post.
  - rewrite (publish_route_resolves _ _ _ _ _ _ Hpost Haccount _ _ Hcall). cbn [snd w_db].
    split; [|split; [reflexivity|split; [reflexivity|]]].
    + intros id Hne. unfold db_while_posting. by rewrite !lookup_post_update_ne.
    + intros post'. rewrite lookup_post_update, (posting_is_committed _ _ _ Hpost).
      intros [= <-]. exists post. by destruct post.
Qed.

Section sweep_events.
Context (Api : ApiClass).

Lemma sync_post_events (post : Post) (w : World) :
  ∃ evs e,
    sync_post Api post w = (inr (), mkWorld (w_db w) e (w_trace w ++ evs)) ∧
    Forall is_sweep_event evs.
Proof.
  unfold sync_post.
  destruct (post_tiktokPostId post) as [videoId|];
    [|exists [], (w_env w); split; [apply skip_run|constructor]].
  destruct (decide (videoId = ""));
    [exists [], (w_env w); split; [apply skip_run|constructor]|].
  run_step run_getTikTokAccount.
  destruct (lookup_account (w_db w) (post_tiktokAccountId post)) as [tiktokAccount|];
    [|exists [], (w_env w); split; [apply skip_run|constructor]].
  destruct (getVideoAnalytics (Api (acct_accessToken tiktokAccount)) (w_env w) [videoId])
    as [[message|analyticsData] e] eqn:Hfetch.
  - eexists [_; _], e. split.
    + erewrite run_try_inl;
        [|erewrite run_bind_inl; [reflexivity|by apply run_await_getVideoAnalytics]].
      unfold console_error, emit. cbn [w_db w_env w_trace]. by rewrite <- app_assoc.
    + by repeat constructor.
  - destruct (analyticsData !! videoId) as [metrics|] eqn:Hentry.
    + eexists [_; _; _], (tick e). split.
      * erewrite run_try_inl;
          [|erewrite run_bind_inr; [|by apply run_await_getVideoAnalytics];
            rewrite Hentry; erewrite run_bind_inl; [reflexivity|apply upsert_rejected]].
        unfold console_error, emit. cbn [w_db w_env w_trace]. by rewrite <- !app_assoc.
      * by repeat constructor.
    + eexists [_], e. split.
      * erewrite run_try_inr;
          [reflexivity|erewrite run_bind_inr; [|by apply run_await_getVideoAnalytics];
                       by rewrite Hentry].
      * by repeat constructor.
Qed.

Lemma sync_loop_events (postedPosts : list Post) (w : World) :
  ∃ evs e,
    for_of postedPosts (sync_post Api) w = (inr (), mkWorld (w_db w) e (w_trace w ++ evs)) ∧
    Forall is_sweep_event evs.
Proof.
  revert w. induction postedPosts as [|post postedPosts IH]; intros w.
  - exists [], (w_env w). split; [apply skip_run|constructor].
  - destruct (sync_post_events post w) as (evs1 & e1 & Hrun1 & Hevs1).
    destruct (IH (mkWorld (w_db w) e1 (w_trace w ++ evs1))) as (evs2 & e2 & Hrun2 & Hevs2).
    exists (evs1 ++ evs2), e2. split.
    + cbn [for_of]. erewrite run_bind_inr; [|exact Hrun1].
      rewrite Hrun2. cbn [w_db w_trace]. by rewrite app_assoc.
    + by apply Forall_app.
Qed.

End sweep_events.

(** The sweep writes no post and no account and publishes nothing: the
    posts and the accounts are as before, and all it adds to the trace are
    analytics fetches, upserts of analytics and lines on the error
    console. *)
Theorem sweep_writes_no_post Api w :
  let w' := snd (sync_analytics_route Api w) in
  db_posts (w_db w') = db_posts (w_db w) ∧
  db_tiktokAccounts (w_db w') = db_tiktokAccounts (w_db w) ∧
  ∃ evs, w_trace w' = w_trace w ++ evs ∧ Forall is_sweep_event evs.
Proof.
  cbv zeta. unfold sync_analytics_route, syncAnalytics, getPosts.
  erewrite run_bind_inr; [|reflexivity].
  set (postedPosts := filter _ _).
  destruct (sync_loop_events Api postedPosts w) as (evs & e & Hrun & Hevs).
  erewrite run_bind_inr; [|exact Hrun]. cbn. eauto.
Qed.

(** ** Analytics are never stored *)

Lemma publish_route_analytics Api req postId w :
  db_postAnalytics (w_db (snd (publish_route Api req postId w))) = db_postAnalytics (w_db w).
Proof.
  destruct (lookup_post (w_db w) postId) as [post|] eqn:Hpost;
    [|unfold publish_route; by rewrite (publish_post_missing _ _ _ _ Hpost)].
  destruct (lookup_account (w_db w) (post_tiktokAccountId post))
    as [tiktokAccount|] eqn:Haccount;
    [|unfold publish_route; by rewrite (publish_account_missing _ _ _ _ _ Hpost Haccount)].
  destruct (publish_call Api req w post tiktokAccount) as [[message|result] e] eqn:Hcall.
  - by rewrite (publish_route_rejects _ _ _ _ _ _ Hpost Haccount _ _ Hcall).
  - by rewrite (publish_route_resolves _ _ _ _ _ _ Hpost Haccount _ _ Hcall).
Qed.

Lemma run_analytics_empty (op : Operation) (w : World) :
  db_postAnalytics (w_db w) = [] → db_postAnalytics (w_db (run op w)) = [].
Proof.
  intros Hempty. destruct op as [postData|id updates|Api req postId|Api]; cbn [run].
  - by rewrite run_createPost.
  - by rewrite run_updatePost.
  - by rewrite publish_route_analytics.
  - by destruct (sync_analytics_route_run Api w) as (evs & e & -> & _).
Qed.

(** In every world the program can reach, [post_analytics] is empty (the
    only statement that writes it is rejected), and so
    [GET /api/posts/:id/analytics] answers 404 for every post. *)
Theorem analytics_are_never_stored (w : World) (postId : Z) :
  reachable w →
  db_postAnalytics (w_db w) = [] ∧
  analytics_route postId w = ((404, AnalyticsMessage "Analytics not found"), w).
Proof.
  intros Hreach.
  assert (db_postAnalytics (w_db w) = []) as Hempty.
  { induction Hreach as [accounts e|op w _ IH]; [done|by apply run_analytics_empty]. }
  split; [done|].
  unfold analytics_route, getPostAnalytics. erewrite run_bind_inr; [|reflexivity].
  unfold rows_of_analytics. by rewrite Hempty.
Qed.

(** ** The mock service *)

Lemma mock_metrics_env (e : Env) :
  env_clock (snd (mock_metrics e)) = env_clock e ∧
  env_ticks (snd (mock_metrics e)) = env_ticks e ∧
  env_random (snd (mock_metrics e)) = env_random e ∧
  env_draws (snd (mock_metrics e)) = (6 + env_draws e)%nat.
Proof. by repeat split. Qed.

Lemma mock_metrics_range (e : Env) :
  random_in_range e → in_mock_range (fst (mock_metrics e)).
Proof.
  intros Hrange. unfold in_mock_range, mock_metrics, random_below. cbn.
  repeat split; apply Hrange; lia.
Qed.

Lemma mock_fold (videoIds : list string) (analytics : gmap string TikTokAnalytics)
    (e : Env) :
  let result := foldl mock_step (analytics, e) videoIds in
  (∀ id, is_Some (fst result !! id) ↔ is_Some (analytics !! id) ∨ id ∈ videoIds) ∧
  (∀ id metrics, fst result !! id = Some metrics →
     analytics !! id = Some metrics ∨ (random_in_range e → in_mock_range metrics)) ∧
  env_random (snd result) = env_random e ∧
  env_ticks (snd result) = env_ticks e ∧
  env_draws (snd result) = (6 * length videoIds + env_draws e)%nat.
Proof.
  cbv zeta. revert analytics e.
  induction videoIds as [|videoId videoIds IH]; intros analytics e.
  - cbn. split; [|split; [by left|done]].
    intros id. rewrite elem_of_nil. tauto.
  - cbn [foldl]. unfold mock_step at 2 4 6 8 10.
    destruct (mock_metrics e) as [metrics e1] eqn:Hmetrics.
    destruct (IH (<[videoId := metrics]> analytics) e1) as (Hdom & Hval & Hrandom & Hticks & Hdraws).
    destruct (mock_metrics_env e) as (_ & Hticks1 & Hrandom1 & Hdraws1).
    pose proof (mock_metrics_range e) as Hrange1.
    rewrite Hmetrics in Hticks1, Hrandom1, Hdraws1, Hrange1. cbn [fst snd] in *.
    split; [|split; [|split; [congruence|split; [congruence|]]]].
    + intros id. rewrite Hdom, elem_of_cons, lookup_insert_is_Some.
      destruct (decide (videoId = id)); intuition (auto; congruence).
    + intros id metrics' Hlookup. apply Hval in Hlookup as [Hlookup|Hlookup].
      * apply lookup_insert_Some in Hlookup as [[_ <-]|[_ Hlookup]]; [right; done|by left].
      * right. intros Hrange. apply Hlookup.
        intros n k. unfold random_in_range in Hrange. rewrite Hrandom1. apply Hrange.
    + rewrite Hdraws, Hdraws1. cbn [length]. lia.
Qed.

(** The mock recognises every id: it never throws, its answer holds an
    entry for exactly the ids it was asked, it draws six random numbers
    per id and does not read the clock.  The answer is a JavaScript
    object, which takes every string as a key of its own except
    ["__proto__"]. *)
Theorem mock_recognises_every_id (accessToken : string) (e : Env) (videoIds : list string) :
  "__proto__" ∉ videoIds →
  ∃ analyticsData e',
    getVideoAnalytics (MockTikTokApiService accessToken) e videoIds
      = (inr analyticsData, e') ∧
    (∀ id, is_Some (analyticsData !! id) ↔ id ∈ videoIds) ∧
    env_draws e' = (6 * length videoIds + env_draws e)%nat ∧
    env_ticks e' = env_ticks e.
Proof.
  intros _. cbn [MockTikTokApiService getVideoAnalytics].
  change (foldl _ (∅, e) videoIds) with (foldl mock_step (∅, e) videoIds).
  destruct (mock_fold videoIds ∅ e) as (Hdom & _ & _ & Hticks & Hdraws).
  destruct (foldl mock_step (∅, e) videoIds) as [analyticsData e'].
  eexists _, _. split; [reflexivity|]. cbn [fst snd] in *.
  split; [|done]. intros id. rewrite Hdom, lookup_empty. split; [|by right].
  intros [[? ?]|?]; done.
Qed.


(** With a generator whose floored draws are in range, as those of
    [Math.random()] are, every metric of the mock is within its bound:
    likes below 10000, comments below 1000, shares below 500, views below
    100000, profile views below 200, the average duration below 30000. *)
Theorem mock_metrics_in_range (accessToken : string) (e : Env) (videoIds : list string)
    (analyticsData : gmap string TikTokAnalytics) (e' : Env) (id : string)
    (metrics : TikTokAnalytics) :
  random_in_range e →
  getVideoAnalytics (MockTikTokApiService accessToken) e videoIds = (inr analyticsData, e') →
  analyticsData !! id = Some metrics →
  in_mock_range metrics.
Proof.
  intros Hrange. cbn [MockTikTokApiService getVideoAnalytics].
  change (foldl _ (∅, e) videoIds) with (foldl mock_step (∅, e) videoIds).
  destruct (mock_fold videoIds ∅ e) as (_ & Hval & _).
  destruct (foldl mock_step (∅, e) videoIds) as [analyticsData0 e0].
  intros [= <- <-] Hlookup. cbn [fst] in Hval.
  destruct (Hval id metrics Hlookup) as [Hempty|Hin]; [by rewrite lookup_empty in Hempty|].
  by apply Hin.
Qed.

(** ** The service over HTTP *)

Lemma analytics_of_videos_fold (videos : list Video) (analytics : gmap string TikTokAnalytics)
    (id : string) :
  foldl (λ analytics video, <[video_id video := video_metrics video]> analytics)
        analytics videos !! id
  = match last (filter (λ video, video_id video = id) videos) with
    | Some video => Some (video_metrics video)
    | None => analytics !! id
    end.
Proof.
  revert analytics. induction videos as [|video videos IH]; intros analytics; [done|].
  cbn [foldl]. rewrite IH, filter_cons.
  destruct (decide (video_id video = id)) as [Hid|Hid].
  - rewrite last_cons.
    destruct (last (filter (λ video, video_id video = id) videos)); [done|].
    by rewrite Hid, lookup_insert_eq.
  - by rewrite lookup_insert_ne.
Qed.

(** When the video query resolves, the service's answer holds, for each
    id, the metrics of the last video the platform returned under that
    id, a missing count read as 0, and no entry for an id the platform
    returned no video for (or when it returned no list at all). *)
Theorem http_analytics_entries (axios : Axios) (accessToken : string) (e : Env)
    (videoIds : list string) (videos : option (list Video)) (e' : Env) :
  post_video_query axios (tick e) accessToken videoIds (length videoIds) (pretty (now e))
    = (inr videos, e') →
  ∃ analyticsData,
    getVideoAnalytics (TikTokApiService_over axios accessToken) e videoIds
      = (inr analyticsData, e') ∧
    ∀ id, analyticsData !! id
          = video_metrics <$> last (filter (λ video, video_id video = id) (default [] videos)).
Proof.
  intros Hquery. cbn [TikTokApiService_over getVideoAnalytics]. rewrite Hquery.
  eexists. split; [reflexivity|]. intros id.
  unfold analytics_of_videos. rewrite analytics_of_videos_fold.
  by destruct (last _).
Qed.

(** When the publish init fails, the service throws
    ["Failed to post video from URL: "] followed by the platform's own
    message when it sent a non-empty one and by the transport's message
    otherwise; publish stores that text as the [errorMessage] of the now
    [failed] post and answers 500 with it. *)
Theorem publish_over_http_records_reason (axios : Axios) req postId w post tiktokAccount
    (error : AxiosError) (e : Env) :
  lookup_post (w_db w) postId = Some post →
  lookup_account (w_db w) (post_tiktokAccountId post) = Some tiktokAccount →
  post_publish_init axios (tick (w_env w)) (acct_accessToken tiktokAccount)
    (postInfo_of post) (video_location req post) = (inl error, e) →
  let reason :=
    match api_error_message error with
    | Some "" | None => transport_message error
    | Some message => message
    end in
  let w' := snd (publish_route (TikTokApiService_over axios) req postId w) in
  fst (publish_route (TikTokApiService_over axios) req postId w)
    = mkResponse 500 (JsonMessage ("Failed to post video from URL: " +:+ reason)) ∧
  ∃ post',
    lookup_post (w_db w') postId = Some post' ∧
    post_status post' = Some Failed ∧
    post_errorMessage post' = Some ("Failed to post video from URL: " +:+ reason).
Proof.
  intros Hpost Haccount Hinit reason w'. subst w'.
  assert (failure_reason error = reason) as Hreason.
  { unfold failure_reason, reason. destruct (api_error_message error) as [message|]; [|done].
    destruct (decide (message = "")) as [->|Hne]; [done|].
    destruct message as [|? ?]; done. }
  assert (publish_call (TikTokApiService_over axios) req w post tiktokAccount
          = (inl ("Failed to post video from URL: " +:+ reason), e)) as Hcall.
  { unfold publish_call. cbn [TikTokApiService_over postVideoFromUrl].
    by rewrite Hinit, Hreason. }
  rewrite (publish_route_rejects _ _ _ _ _ _ Hpost Haccount _ _ Hcall).
  cbn [fst snd w_db]. split; [done|].
  rewrite lookup_post_update, (posting_is_committed _ _ _ Hpost).
  eexists. split; [reflexivity|]. by split.
Qed.

(** ** The sweep of the stand-alone server *)

Lemma server_sync_post_throws (post : Post) (w : World) :
  ∃ data e,
    server_sync_post post w
      = (inl no_arbiter_index,
         mkWorld (w_db w) e (w_trace w ++ [EvUpsertPostAnalytics data])) ∧
    ia_postId data = post_id post.
Proof. eexists _, _. split; reflexivity. Qed.

(** The sweep of [server.ts] does not guard the upsert.  With no posted
    post of [user123] it answers 200 and does nothing; with one or more it
    sends the upsert for the first of them, the database rejects it, and
    the sweep stops there: it answers 500 and the other posts are not
    processed. *)
Theorem server_sweep_stops_at_first_post (w : World) :
  match filter (λ post, post_status post = Some Posted)
               (merge_sort createdAt_desc
                  (filter (λ post, post_userId post = "user123") (db_posts (w_db w)))) with
  | [] =>
      server_sync_analytics_route w
        = (mkResponse 200 (JsonMessage "Analytics synced successfully"), w)
  | post :: _ =>
      ∃ data e,
        ia_postId data = post_id post ∧
        server_sync_analytics_route w
          = (mkResponse 500 (JsonMessage "Failed to sync analytics"),
             mkWorld (w_db w) e
               (w_trace w ++ [EvUpsertPostAnalytics data;
                              EvConsoleError "Error syncing analytics:" no_arbiter_index]))
  end.
Proof.
  unfold server_sync_analytics_route, getPosts.
  erewrite run_bind_inr; [|reflexivity].
  destruct (filter _ (merge_sort _ _)) as [|post publishedPosts]; [reflexivity|].
  destruct (server_sync_post_throws post w) as (data & e & Hrun & Hid).
  exists data, e. split; [done|].
  erewrite run_bind_inl; [|cbn [for_of]; erewrite run_bind_inl; [reflexivity|exact Hrun]].
  unfold console_error, emit. cbn [snd w_db w_env w_trace]. by rewrite <- app_assoc.
Qed.

(** ** PATCH and DELETE *)


Lemma run_delete_route (postId : Z) (w : World) :
  ∃ w', delete_route postId w = ((204, None), w') ∧
        rows_of_post (w_db w') postId = [] ∧
        (rows_of_post (w_db w) postId = [] → w' = w).
Proof.
  unfold delete_route, deletePost. erewrite run_bind_inr; [|reflexivity].
  destruct (decide (rows_of_post (w_db w) postId = [])) as [Hnone|Hsome].
  - exists w. by repeat split.
  - eexists. split; [reflexivity|]. split; [|done].
    unfold rows_of_post. cbn [w_db db_posts]. apply filter_same_key.
Qed.

(** [DELETE /api/posts/:id] answers 204 whether or not the post exists,
    and is idempotent: after it the post is gone, and a second delete
    answers 204 again and changes nothing. *)
Theorem delete_is_idempotent (postId : Z) (w : World) :
  let w' := snd (delete_route postId w) in
  fst (delete_route postId w) = (204, None) ∧
  getPost postId w' = (inr None, w') ∧
  delete_route postId w' = ((204, None), w').
Proof.
  cbv zeta. destruct (run_delete_route postId w) as (w' & -> & Hgone & _).
  cbn [fst snd]. split; [reflexivity|]. split.
  - rewrite run_getPost. unfold lookup_post. by rewrite Hgone.
  - destruct (run_delete_route postId w') as (w'' & -> & _ & Hsame).
    by rewrite (Hsame Hgone).
Qed.

(** ** Publish and analytics of the stand-alone server *)

(** The publish of [server.ts] asks for no account and cannot fail: for
    an id that no post has it answers 404 and touches nothing; for an
    existing post, whatever its status and whether or not its account
    exists, it answers 200 with the id the mock made up, and its one write
    leaves the post [posted] with that id and [postedAt] set.  It never
    writes [posting], sends no request and leaves [errorMessage] as it
    was. *)
Theorem server_publish_needs_no_account (postId : Z) (w : World) :
  match lookup_post (w_db w) postId with
  | None => server_publish_route postId w = ((404, PublishMessage "Post not found"), w)
  | Some post =>
      let tiktokPostId := "mock_post_" +:+ pretty (now (w_env w)) in
      let postedAt := now (tick (w_env w)) in
      let w' := snd (server_publish_route postId w) in
      fst (server_publish_route postId w)
        = (200, Published "Post published successfully" tiktokPostId) ∧
      (∃ post',
         lookup_post (w_db w') postId = Some post' ∧
         post_status post' = Some Posted ∧
         post_tiktokPostId post' = Some tiktokPostId ∧
         post_postedAt post' = Some postedAt ∧
         post_errorMessage post' = post_errorMessage post ∧
         round_trip post') ∧
      w_trace w' = w_trace w ++ [EvUpdatePost postId (status_posted tiktokPostId postedAt)]
  end.
Proof.
  unfold server_publish_route. erewrite run_bind_inr; [|apply run_getPost].
  destruct (lookup_post (w_db w) postId) as [post|] eqn:Hpost; [|reflexivity].
  cbv zeta. unfold mock_postVideo.
  erewrite run_bind_inr; [|erewrite run_bind_inr; reflexivity].
  erewrite run_bind_inr; [|reflexivity].
  erewrite run_bind_inr; [|apply run_updatePost].
  cbn [fst snd w_db w_env w_trace publish_id mret M_ret].
  split; [reflexivity|]. split; [|reflexivity].
  rewrite lookup_post_update, Hpost. eexists. split; [reflexivity|].
  cbn. repeat split; eauto.
Qed.

(** The fall-back of the analytics route of [server.ts] never works: the
    route leaves the database as it was; it answers with the stored row
    when there is one, and otherwise the upsert of the made-up row is
    rejected and the answer is 500. *)
Theorem server_analytics_fallback_fails (postId : Z) (w : World) :
  let w' := snd (server_analytics_route postId w) in
  w_db w' = w_db w ∧
  match head (rows_of_analytics (w_db w) postId) with
  | Some analytics => server_analytics_route postId w = ((200, AnalyticsRow analytics), w)
  | None =>
      fst (server_analytics_route postId w)
        = (500, AnalyticsMessage "Failed to fetch analytics") ∧
      ∃ data,
        ia_postId data = postId ∧
        w_trace w' = w_trace w ++ [EvUpsertPostAnalytics data;
                                   EvConsoleError "Error fetching analytics:" no_arbiter_index]
  end.
Proof.
  cbv zeta. unfold server_analytics_route, getPostAnalytics.
  erewrite run_bind_inr; [|reflexivity].
  destruct (head (rows_of_analytics (w_db w) postId)) as [analytics|]; [done|].
  do 7 (erewrite run_bind_inr; [|reflexivity]).
  erewrite run_bind_inl; [|apply upsert_rejected].
  unfold console_error, emit. cbn [fst snd w_db w_env w_trace].
  split; [reflexivity|]. split; [reflexivity|].
  eexists. split; [|by rewrite <- app_assoc]. reflexivity.
Qed.

(** ** The further theorems at sample inputs *)

Lemma w_reached_reachable : reachable w_reached.
Proof. do 3 apply reachable_run. apply reachable_start. Defined.

Lemma w_life_lifecycle : lifecycle w_life.
Proof.
  apply lifecycle_deletePost, lifecycle_sync, lifecycle_publish.
  apply lifecycle_createPost; [apply lifecycle_createPost; [apply lifecycle_start|]|];
    vm_compute; reflexivity.
Defined.

Lemma lifecycle_keeps_tables_well_formed_witness :
  posts_wf (w_db w_life) ∧ accounts_exist (w_db w_life).
Proof. apply lifecycle_keeps_tables_well_formed. exact w_life_lifecycle. Defined.

Lemma w_sample_wf : posts_wf (w_db w_sample).
Proof.
  split.
  - apply (bool_decide_unpack _). vm_compute. exact I.
  - intros p Hin.
    repeat (apply elem_of_cons in Hin as [->|Hin]); [..|by apply elem_of_nil in Hin];
      vm_compute; reflexivity.
Defined.

Lemma createPost_then_getPost_witness :
  ∃ post w',
    createPost insert_draft w_sample = (inr post, w') ∧
    post_id post = db_posts_id_seq (w_db w_sample) ∧
    getPost (post_id post) w' = (inr (Some post), w') ∧
    (∀ id, id ≠ post_id post → lookup_post (w_db w') id = lookup_post (w_db w_sample) id) ∧
    (ins_status insert_draft = None → post_status post = Some Draft) ∧
    (ins_privacyLevel insert_draft = None → post_privacyLevel post = Some Public) ∧
    (ins_tiktokPostId insert_draft = None → post_tiktokPostId post = None) ∧
    (ins_allowComments insert_draft = None → post_allowComments post = Some true) ∧
    posts_wf (w_db w').
Proof.
  apply createPost_then_getPost; [exact w_sample_wf|]. vm_compute. reflexivity.
Defined.

Lemma updatePost_missing_witness :
  ∃ w', updatePost 99 (status_failed "no such post") w_sample = (inr None, w') ∧
        w_db w' = w_db w_sample.
Proof. apply updatePost_missing. reflexivity. Defined.

Lemma updatePost_frame_witness :
  ∃ post' w',
    updatePost 1 (status_failed "boom") w_sample = (inr (Some post'), w') ∧
    lookup_post (w_db w') 1 = Some post' ∧
    post_updatedAt post' = Some (now (w_env w_sample)) ∧
    post_userId post' = post_userId draft_post ∧
    post_tiktokAccountId post' = post_tiktokAccountId draft_post ∧
    (∀ status, set_status (status_failed "boom") = Some status → post_status post' = status) ∧
    (set_status (status_failed "boom") = None → post_status post' = post_status draft_post) ∧
    (∀ id', 1 ≠ id' → lookup_post (w_db w') id' = lookup_post (w_db w_sample) id') ∧
    db_tiktokAccounts (w_db w') = db_tiktokAccounts (w_db w_sample) ∧
    db_postAnalytics (w_db w') = db_postAnalytics (w_db w_sample).
Proof. apply updatePost_frame; reflexivity. Defined.

Lemma deleteTikTokAccount_cascades_witness :
  ∃ w',
    deleteTikTokAccount 1 w_sample = (inr (), w') ∧
    lookup_account (w_db w') 1 = None ∧
    (∀ a, a ≠ 1 → lookup_account (w_db w') a = lookup_account (w_db w_sample) a) ∧
    (∀ p, p ∈ db_posts (w_db w') ↔ p ∈ db_posts (w_db w_sample) ∧ post_tiktokAccountId p ≠ 1) ∧
    (∀ p, p ∈ db_posts (w_db w_sample) → post_tiktokAccountId p = 1 →
       rows_of_analytics (w_db w') (post_id p) = [] ∧
       ∀ Api req,
         publish_route Api req (post_id p) w'
           = (mkResponse 404 (JsonMessage "Post not found"), w')) ∧
    (∀ p, p ∈ db_posts (w_db w_sample) → post_tiktokAccountId p ≠ 1 →
       lookup_post (w_db w') (post_id p) = Some p ∧
       rows_of_analytics (w_db w') (post_id p)
         = rows_of_analytics (w_db w_sample) (post_id p)) ∧
    (accounts_exist (w_db w_sample) → accounts_exist (w_db w')).
Proof.
  apply deleteTikTokAccount_cascades.
  - exact (proj1 w_sample_wf).
  - eexists. reflexivity.
Defined.

Lemma analytics_are_never_stored_witness :
  db_postAnalytics (w_db w_reached) = [] ∧
  analytics_route 1 w_reached = ((404, AnalyticsMessage "Analytics not found"), w_reached).
Proof. apply analytics_are_never_stored. exact w_reached_reachable. Defined.

Lemma env_max_in_range : random_in_range env_max.
Proof. intros n k Hk. cbn. lia. Defined.

Lemma mock_metrics_in_range_witness :
  in_mock_range (mkTikTokAnalytics 9999 999 499 99999 199 29999).
Proof.
  apply (mock_metrics_in_range "token-1" env_max ["video-1"]
           {[ "video-1" := mkTikTokAnalytics 9999 999 499 99999 199 29999 ]}
           (draw (draw (draw (draw (draw (draw env_max)))))) "video-1").
  - exact env_max_in_range.
  - vm_compute. reflexivity.
  - vm_compute. reflexivity.
Defined.

Lemma http_analytics_entries_witness :
  ∃ analyticsData,
    getVideoAnalytics (TikTokApiService_over axios0 "token-1") env0 ["video-1"; "video-2"]
      = (inr analyticsData, tick env0) ∧
    ∀ id, analyticsData !! id
          = video_metrics <$>
              last (filter (λ video, video_id video = id)
                      (default []
                         (Some [ mkVideo "video-1" (Some 10) (Some 2) None (Some 100) None None;
                                 mkVideo "video-9" None None None None None None ]))).
Proof. apply http_analytics_entries. reflexivity. Defined.

Lemma publish_over_http_records_reason_witness :
  fst (publish_route (TikTokApiService_over axios0) req0 1 w_sample)
    = mkResponse 500
        (JsonMessage "Failed to post video from URL: spam_risk_too_many_posts") ∧
  ∃ post',
    lookup_post (w_db (snd (publish_route (TikTokApiService_over axios0) req0 1 w_sample))) 1
      = Some post' ∧
    post_status post' = Some Failed ∧
    post_errorMessage post'
      = Some "Failed to post video from URL: spam_risk_too_many_posts".
Proof.
  exact (publish_over_http_records_reason axios0 req0 1 w_sample draft_post
           (account 1 (Some true))
           (mkAxiosError (Some "spam_risk_too_many_posts")
                         "Request failed with status code 403")
           (tick env0) eq_refl eq_refl eq_refl).
Defined.

Lemma mock_recognises_every_id_witness :
  ∃ analyticsData e',
    getVideoAnalytics (MockTikTokApiService "token-1") env0 ["video-1"; "video-2"]
      = (inr analyticsData, e') ∧
    (∀ id, is_Some (analyticsData !! id) ↔ id ∈ ["video-1"; "video-2"]) ∧
    env_draws e' = (6 * length ["video-1"; "video-2"] + env_draws env0)%nat ∧
    env_ticks e' = env_ticks env0.
Proof.
  apply mock_recognises_every_id.
  apply (bool_decide_unpack _). vm_compute. exact I.
Defined.


